(** * MyList: a shallow embedding of the list engine, its store and its cache

    The development follows the TypeScript sources:
    - [src/types/*.ts]                      the domain records,
    - [src/repositories/implementations]    UserRepository, ContentRepository,
                                            MyListRepository,
    - [src/config/env.ts]                   InMemoryCacheService,
    - [src/services/CacheService.ts]        CacheService,
    - [src/services/MyListService.ts]       MyListService.

    Every [async] function is a value of the free monad [prog]: a tree whose
    nodes are the operations the function awaits (database queries, cache
    calls) or performs on its environment (reading the clock, logging).
    [run] executes one call alone; [sched] interleaves several calls at their
    await points, the way the Node.js event loop does. *)

From Stdlib Require Import ZArith Lia Ascii String.
From stdpp Require Import gmap strings list fin_maps pretty sorting.

Local Open Scope string_scope.
Local Open Scope Z_scope.

(** ** Domain types *)

Inductive ContentType := Movie | TVShow.

Inductive Genre := Action | Comedy | Drama | Fantasy | Horror | Romance | SciFi.

#[global] Instance ContentType_eq_dec : EqDecision ContentType.
Proof. solve_decision. Defined.

(** [Date] values are kept as their [getTime()] reading, in milliseconds. *)
Record MyListItem := {
  contentId   : string;
  contentType : ContentType;
  addedAt     : Z;
}.

(** One document of the [mylists] collection.  The collection carries a unique
    index on [userId], so it is a finite map from [userId] to the rest of the
    document. *)
Record MyListDoc := {
  items     : list MyListItem;
  createdAt : Z;
  updatedAt : Z;
}.

Record MovieDoc := {
  movie_id          : string;
  movie_title       : string;
  movie_description : string;
  movie_genres      : list Genre;
  movie_releaseDate : Z;
  movie_director    : string;
  movie_actors      : list string;
}.

Record Episode := {
  episodeNumber      : Z;
  seasonNumber       : Z;
  episode_releaseDate : Z;
  episode_director   : string;
  episode_actors     : list string;
}.

Record TVShowDoc := {
  tvshow_id          : string;
  tvshow_title       : string;
  tvshow_description : string;
  tvshow_genres      : list Genre;
  tvshow_episodes    : list Episode;
}.

(** [type Content = Movie | TVShow] of [entities.ts]. *)
Inductive Content :=
  | CMovie (m : MovieDoc)
  | CTVShow (t : TVShowDoc).

Definition content_id (c : Content) : string :=
  match c with CMovie m => movie_id m | CTVShow t => tvshow_id t end.

Definition content_title (c : Content) : string :=
  match c with CMovie m => movie_title m | CTVShow t => tvshow_title t end.

Definition content_description (c : Content) : string :=
  match c with CMovie m => movie_description m | CTVShow t => tvshow_description t end.

Definition content_genres (c : Content) : list Genre :=
  match c with CMovie m => movie_genres m | CTVShow t => tvshow_genres t end.

(** [isMovie]: ['director' in content && !('episodes' in content)]. *)
Definition isMovie (c : Content) : bool :=
  match c with CMovie _ => true | CTVShow _ => false end.

Record PaginationMeta := {
  page            : Z;
  limit           : Z;
  total           : Z;
  totalPages      : Z;
  hasNextPage     : bool;
  hasPreviousPage : bool;
}.

Record MyListItemWithDetails := {
  d_contentId    : string;
  d_contentType  : ContentType;
  d_title        : string;
  d_description  : string;
  d_genres       : list Genre;
  d_addedAt      : Z;
  d_releaseDate  : option Z;
  d_director     : option string;
  d_actors       : option (list string);
  d_episodeCount : option Z;
}.

Record PaginatedMyListResponse := {
  data       : list MyListItemWithDetails;
  pagination : PaginationMeta;
}.

Record PaginatedMyListResult := {
  result_items      : list MyListItem;
  result_pagination : PaginationMeta;
}.

Record AddToMyListRequest := {
  req_contentId   : string;
  req_contentType : ContentType;
}.

Record ListMyItemsQuery := {
  query_page        : option Z;
  query_limit       : option Z;
  query_contentType : option ContentType;
}.

(** ** Errors

    The four business errors of [MyListService.ts] are classes of their own;
    everything else that can be thrown (a plain [new Error(msg)], a driver
    error, a rejected cache call) is an [Error] with a message. *)
Inductive Error :=
  | UserNotFoundError (userId : string)
  | ContentNotFoundError (contentId : string) (contentType : ContentType)
  | DuplicateItemError (contentId : string)
  | ItemNotFoundError (contentId : string)
  | PlainError (message : string).

Definition ContentType_to_string (t : ContentType) : string :=
  match t with Movie => "Movie" | TVShow => "TVShow" end.

Definition error_message (e : Error) : string :=
  match e with
  | UserNotFoundError u => "User not found: " +:+ u
  | ContentNotFoundError c t =>
      "Content not found: " +:+ c +:+ " (" +:+ ContentType_to_string t +:+ ")"
  | DuplicateItemError c => "Item already exists in list: " +:+ c
  | ItemNotFoundError c => "Item not found in list: " +:+ c
  | PlainError m => m
  end.

Definition already_exists_message : string := "Item already exists in list".
Definition duplicate_key_message : string := "E11000 duplicate key error collection: mylists index: userId_1".
Definition cache_failure_message : string := "cache backend rejected the call".
Definition regexp_syntax_message : string := "Invalid regular expression".

(** ** Awaited operations *)

Inductive LogLevel := LDebug | LInfo | LWarn | LError.

Inductive op : Type -> Type :=
  (* UserModel / MovieModel / TVShowModel *)
  | UserCountDocuments (id : string) : op Z
  | MovieCountDocuments (id : string) : op Z
  | TVShowCountDocuments (id : string) : op Z
  | MovieFindIn (ids : list string) : op (list MovieDoc)
  | TVShowFindIn (ids : list string) : op (list TVShowDoc)
  (* MyListModel *)
  | MyListFindOne (userId : string) : op (option MyListDoc)
  | MyListFindOneWithItem (userId contentId : string) : op (option MyListDoc)
  | MyListPushUpsert (userId : string) (item : MyListItem) (now : Z) : op MyListDoc
  | MyListPull (userId contentId : string) (now : Z) : op (option MyListDoc)
  (* ICacheService *)
  | CacheGet (key : string) : op (option PaginatedMyListResponse)
  | CacheSet (key : string) (value : PaginatedMyListResponse) (ttlSeconds : Z) : op unit
  | CacheDeletePattern (pattern : string) : op unit
  (* environment *)
  | DateNow : op Z
  | Log (level : LogLevel) (message : string) : op unit.

Inductive event :=
  | Ev (R : Type) (o : op R).

Arguments Ev {R} o.

(** ** Asynchronous programs *)

Inductive prog (A : Type) : Type :=
  | Ret (a : A)
  | Throw (e : Error)
  | Await (R : Type) (o : op R) (k : Error + R -> prog A).

Arguments Ret {A} a.
Arguments Throw {A} e.
Arguments Await {A R} o k.

Fixpoint bind {A B : Type} (p : prog A) (f : A -> prog B) : prog B :=
  match p with
  | Ret a => f a
  | Throw e => Throw e
  | Await o k => Await o (fun r => bind (k r) f)
  end.

(** [try { p } catch (error) { h error }] *)
Fixpoint try_catch {A : Type} (p : prog A) (h : Error -> prog A) : prog A :=
  match p with
  | Ret a => Ret a
  | Throw e => h e
  | Await o k => Await o (fun r => try_catch (k r) h)
  end.

Definition await {R : Type} (o : op R) : prog R :=
  Await o (fun r => match r with inl e => Throw e | inr v => Ret v end).

#[global] Instance prog_ret : MRet prog := @Ret.
#[global] Instance prog_bind : MBind prog := fun A B f p => bind p f.

Definition log (l : LogLevel) (m : string) : prog unit := await (Log l m).

(** ** The world the operations act upon *)

(** [InMemoryCacheService]: [Map<string, { value, expiry? }>]. *)
Record CacheEntry := {
  entry_value  : PaginatedMyListResponse;
  entry_expiry : option Z;
}.

Inductive CacheCall := CallGet | CallSet | CallDeletePattern.

Record World := {
  w_users         : list string;        (* ids of the [users] collection *)
  w_movies        : list MovieDoc;
  w_tvshows       : list TVShowDoc;
  w_mylists       : gmap string MyListDoc;
  w_cache         : gmap string CacheEntry;
  (* an [ICacheService] call may reject; [fun _ => false] is the in-memory
     implementation as written *)
  w_cache_rejects : CacheCall -> bool;
  (* the host's [RegExp] on sources outside the fragment of [compile]:
     [None] is a [SyntaxError] *)
  w_regexp_host   : string -> option (string -> bool);
  w_clock         : Z;                  (* [Date.now()] *)
}.

Definition set_mylists (f : gmap string MyListDoc -> gmap string MyListDoc) (w : World) : World :=
  {| w_users := w_users w; w_movies := w_movies w; w_tvshows := w_tvshows w;
     w_mylists := f (w_mylists w); w_cache := w_cache w;
     w_cache_rejects := w_cache_rejects w; w_regexp_host := w_regexp_host w;
     w_clock := w_clock w |}.

Definition set_cache (f : gmap string CacheEntry -> gmap string CacheEntry) (w : World) : World :=
  {| w_users := w_users w; w_movies := w_movies w; w_tvshows := w_tvshows w;
     w_mylists := w_mylists w; w_cache := f (w_cache w);
     w_cache_rejects := w_cache_rejects w; w_regexp_host := w_regexp_host w;
     w_clock := w_clock w |}.

Definition set_clock (t : Z) (w : World) : World :=
  {| w_users := w_users w; w_movies := w_movies w; w_tvshows := w_tvshows w;
     w_mylists := w_mylists w; w_cache := w_cache w;
     w_cache_rejects := w_cache_rejects w; w_regexp_host := w_regexp_host w;
     w_clock := t |}.

(** *** Regular expressions: the fragment [deletePattern] needs

    A source in the fragment is a sequence of atoms (a literal character or
    [.]), each optionally followed by one of the quantifiers [*], [+], [?].
    Any other use of a syntax character leaves the fragment. *)

Inductive atom := ALit (c : ascii) | AAny.
Inductive quant := QOne | QStar | QPlus | QOpt.

Definition quant_of (c : ascii) : option quant :=
  if decide (c = "*"%char) then Some QStar
  else if decide (c = "+"%char) then Some QPlus
  else if decide (c = "?"%char) then Some QOpt
  else None.

Definition is_syntax_char (c : ascii) : bool :=
  bool_decide (c ∈ ["\"; "^"; "$"; "|"; "("; ")"; "["; "]"; "{"; "}"; "*"; "+"; "?"]%char).

Definition atom_of (c : ascii) : atom :=
  if decide (c = "."%char) then AAny else ALit c.

Definition starts_with_quantifier (s : string) : bool :=
  match s with
  | String c _ => bool_decide (is_Some (quant_of c))
  | EmptyString => false
  end.

Fixpoint compile (s : string) : option (list (atom * quant)) :=
  match s with
  | EmptyString => Some []
  | String c rest =>
      if is_syntax_char c then None
      else
        match rest with
        | EmptyString => Some [(atom_of c, QOne)]
        | String q rest' =>
            match quant_of q with
            | Some qu =>
                if starts_with_quantifier rest' then None
                else cons (atom_of c, qu) <$> compile rest'
            | None => cons (atom_of c, QOne) <$> compile rest
            end
        end
  end.

(** [.] matches every character but a line terminator. *)
Definition atom_matches (a : atom) (c : ascii) : bool :=
  match a with
  | ALit x => bool_decide (x = c)
  | AAny => negb (bool_decide (c = "010"%char)) && negb (bool_decide (c = "013"%char))
  end.

Fixpoint star_loop (ok : ascii -> bool) (k : string -> bool) (s : string) : bool :=
  k s ||
  match s with
  | String c s' => ok c && star_loop ok k s'
  | EmptyString => false
  end.

Fixpoint match_here (r : list (atom * quant)) (s : string) : bool :=
  match r with
  | [] => true
  | (a, q) :: r' =>
      match q with
      | QOne =>
          match s with
          | String c s' => atom_matches a c && match_here r' s'
          | EmptyString => false
          end
      | QOpt =>
          match_here r' s ||
          match s with
          | String c s' => atom_matches a c && match_here r' s'
          | EmptyString => false
          end
      | QStar => star_loop (atom_matches a) (match_here r') s
      | QPlus =>
          match s with
          | String c s' => atom_matches a c && star_loop (atom_matches a) (match_here r') s'
          | EmptyString => false
          end
      end
  end.

(** [regex.test(s)] for a regex without anchors or flags: a match may start at
    any position and need not reach the end. *)
Fixpoint regexp_test (r : list (atom * quant)) (s : string) : bool :=
  match_here r s ||
  match s with
  | String _ s' => regexp_test r s'
  | EmptyString => false
  end.

(** [pattern.replace(/\*/g, '.*')] *)
Fixpoint replace_stars (s : string) : string :=
  match s with
  | EmptyString => EmptyString
  | String c s' =>
      if decide (c = "*"%char) then String "." (String "*" (replace_stars s'))
      else String c (replace_stars s')
  end.

(** [new RegExp(source)], then [regex.test]. *)
Definition RegExp (w : World) (source : string) : option (string -> bool) :=
  match compile source with
  | Some r => Some (regexp_test r)
  | None => w_regexp_host w source
  end.

(** *** Collections *)

Definition hasItem (cid : string) (d : MyListDoc) : bool :=
  existsb (fun it => bool_decide (contentId it = cid)) (items d).

Definition expired (now : Z) (e : CacheEntry) : bool :=
  match entry_expiry e with
  | Some x => negb (x =? 0) && (x <? now)
  | None => false
  end.

Definition handle {R : Type} (o : op R) (w : World) : (Error + R) * World :=
  match o in op R return (Error + R) * World with
  | UserCountDocuments id =>
      (inr (Z.of_nat (length (filter (fun u => u = id) (w_users w)))), w)
  | MovieCountDocuments id =>
      (inr (Z.of_nat (length (filter (fun m => movie_id m = id) (w_movies w)))), w)
  | TVShowCountDocuments id =>
      (inr (Z.of_nat (length (filter (fun t => tvshow_id t = id) (w_tvshows w)))), w)
  | MovieFindIn ids =>
      (inr (filter (fun m => movie_id m ∈ ids) (w_movies w)), w)
  | TVShowFindIn ids =>
      (inr (filter (fun t => tvshow_id t ∈ ids) (w_tvshows w)), w)
  | MyListFindOne u => (inr (w_mylists w !! u), w)
  | MyListFindOneWithItem u cid =>
      (inr (match w_mylists w !! u with
            | Some d => if hasItem cid d then Some d else None
            | None => None
            end), w)
  (* findOneAndUpdate({ userId, 'items.contentId': { $ne } },
       { $push, $set, $setOnInsert }, { upsert: true, new: true }),
     read by its stated purpose: push onto the matching aggregate, or create
     the aggregate with [item] alone.  Whether the server accepts an update
     that names [items] under both $push and $setOnInsert is not modelled. *)
  | MyListPushUpsert u item now =>
      match w_mylists w !! u with
      | Some d =>
          if hasItem (contentId item) d
          then (* no document matches; the upsert's insert hits the unique
                  index on [userId] *)
            (inl (PlainError duplicate_key_message), w)
          else
            let d' := {| items := items d ++ [item];
                         createdAt := createdAt d; updatedAt := now |} in
            (inr d', set_mylists (insert u d') w)
      | None =>
          let d' := {| items := [item];
                       createdAt := w_clock w; updatedAt := now |} in
          (inr d', set_mylists (insert u d') w)
      end
  (* findOneAndUpdate({ userId }, { $pull, $set }, { new: true }) *)
  | MyListPull u cid now =>
      match w_mylists w !! u with
      | Some d =>
          let d' := {| items := filter (fun it => contentId it ≠ cid) (items d);
                       createdAt := createdAt d; updatedAt := now |} in
          (inr (Some d'), set_mylists (insert u d') w)
      | None => (inr None, w)
      end
  | CacheGet key =>
      if w_cache_rejects w CallGet then (inl (PlainError cache_failure_message), w)
      else
        match w_cache w !! key with
        | None => (inr None, w)
        | Some e =>
            if expired (w_clock w) e
            then (inr None, set_cache (delete key) w)
            else (inr (Some (entry_value e)), w)
        end
  | CacheSet key v ttl =>
      if w_cache_rejects w CallSet then (inl (PlainError cache_failure_message), w)
      else
        let e := {| entry_value := v;
                    entry_expiry := if ttl =? 0 then None
                                    else Some (w_clock w + ttl * 1000) |} in
        (inr tt, set_cache (insert key e) w)
  | CacheDeletePattern pattern =>
      if w_cache_rejects w CallDeletePattern
      then (inl (PlainError cache_failure_message), w)
      else
        match RegExp w (replace_stars pattern) with
        | Some test =>
            (inr tt, set_cache (filter (fun kv => test kv.1 = false)) w)
        | None => (inl (PlainError regexp_syntax_message), w)
        end
  | DateNow => (inr (w_clock w), w)
  | Log _ _ => (inr tt, w)
  end.

(** ** Running programs *)

(** One call, run to completion; the trace lists the operations it issued. *)
Fixpoint run {A : Type} (p : prog A) (w : World) : (Error + A) * World * list event :=
  match p with
  | Ret a => (inr a, w, [])
  | Throw e => (inl e, w, [])
  | Await o k =>
      let '(r, w') := handle o w in
      let '(res, w'', tr) := run (k r) w' in
      (res, w'', Ev o :: tr)
  end.

Definition result_of {A : Type} (x : (Error + A) * World * list event) : Error + A := x.1.1.
Definition world_of {A : Type} (x : (Error + A) * World * list event) : World := x.1.2.
Definition trace_of {A : Type} (x : (Error + A) * World * list event) : list event := x.2.

(** Several calls in flight: the schedule names, step by step, the call whose
    pending operation completes next. *)
Definition step_task {A : Type} (p : prog A) (w : World) : prog A * World :=
  match p with
  | Await o k => let '(r, w') := handle o w in (k r, w')
  | _ => (p, w)
  end.

Fixpoint sched {A : Type} (schedule : list nat) (tasks : list (prog A)) (w : World)
  : list (prog A) * World :=
  match schedule with
  | [] => (tasks, w)
  | i :: rest =>
      match tasks !! i with
      | Some p =>
          let '(p', w') := step_task p w in
          sched rest (<[i := p']> tasks) w'
      | None => sched rest tasks w
      end
  end.

Definition outcome {A : Type} (p : prog A) : option (Error + A) :=
  match p with
  | Ret a => Some (inr a)
  | Throw e => Some (inl e)
  | Await _ _ => None
  end.

Fixpoint mapM {A B : Type} (f : A -> prog B) (l : list A) : prog (list B) :=
  match l with
  | [] => Ret []
  | x :: l' => y ← f x; ys ← mapM f l'; Ret (y :: ys)
  end.

(** ** JavaScript built-ins used by the repositories *)

(** [Math.ceil(a / b)] on integers, [b] not zero. *)
Definition Math_ceil_div (a b : Z) : Z := - ((- a) / b).

(** [Array.prototype.slice(start, end)] on integer arguments. *)
Definition js_slice {A : Type} (l : list A) (start finish : Z) : list A :=
  let len := Z.of_nat (length l) in
  let k := if start <? 0 then Z.max (len + start) 0 else Z.min start len in
  let final := if finish <? 0 then Z.max (len + finish) 0 else Z.min finish len in
  take (Z.to_nat (final - k)) (drop (Z.to_nat k) l).

(** [Array.prototype.sort(cmp)] is a stable sort: [x] goes before the first
    [y] that the comparator does not put strictly before it. *)
Fixpoint sort_insert {A : Type} (cmp : A -> A -> Z) (x : A) (l : list A) : list A :=
  match l with
  | [] => [x]
  | y :: l' => if cmp x y <=? 0 then x :: y :: l' else y :: sort_insert cmp x l'
  end.

Definition js_sort {A : Type} (cmp : A -> A -> Z) (l : list A) : list A :=
  foldr (sort_insert cmp) [] l.

(** The comparator of a descending sort on [key]: [(a, b) => key(b) - key(a)]. *)
Definition descending_by {A : Type} (key : A -> Z) (a b : A) : Z := key b - key a.

(** ** UserRepository *)

Module UserRepository.

Definition exists_ (userId : string) : prog bool :=
  try_catch
    (count ← await (UserCountDocuments userId);
     Ret (0 <? count))
    (fun error => log LError "Error checking user existence";; Throw error).

End UserRepository.

(** ** ContentRepository *)

Module ContentRepository.

Definition contentExists (cid : string) (ct : ContentType) : prog bool :=
  try_catch
    (match ct with
     | Movie => count ← await (MovieCountDocuments cid); Ret (0 <? count)
     | TVShow => count ← await (TVShowCountDocuments cid); Ret (0 <? count)
     end)
    (fun error => log LError "Error checking content existence";; Throw error).

Definition contentMap_of (movies : list MovieDoc) (tvShows : list TVShowDoc)
  : gmap string Content :=
  let m1 := foldl (fun m movie => <[movie_id movie := CMovie movie]> m) ∅ movies in
  foldl (fun m tvShow => <[tvshow_id tvShow := CTVShow tvShow]> m) m1 tvShows.

Definition findContentsByIds (contentIds : list (string * ContentType))
  : prog (list Content) :=
  try_catch
    (let movieIds := (filter (fun item => item.2 = Movie) contentIds).*1 in
     let tvShowIds := (filter (fun item => item.2 = TVShow) contentIds).*1 in
     movieDocs ← (if 0 <? Z.of_nat (length movieIds)
                  then await (MovieFindIn movieIds) else Ret []);
     tvShowDocs ← (if 0 <? Z.of_nat (length tvShowIds)
                   then await (TVShowFindIn tvShowIds) else Ret []);
     let contentMap := contentMap_of movieDocs tvShowDocs in
     Ret (omap (fun item => contentMap !! item.1) contentIds))
    (fun error => log LError "Error finding contents by IDs";; Throw error).

End ContentRepository.

(** ** MyListRepository *)

Module MyListRepository.

Definition itemExists (userId cid : string) : prog bool :=
  try_catch
    (result ← await (MyListFindOneWithItem userId cid);
     Ret (bool_decide (result ≠ None)))
    (fun error => log LError "Error checking item existence in MyList";; Throw error).

Definition addItem (userId : string) (item : MyListItem) : prog unit :=
  try_catch
    (exists_ ← itemExists userId (contentId item);
     if exists_ : bool then Throw (PlainError already_exists_message)
     else
       now ← await DateNow;
       result ← await (MyListPushUpsert userId item now);
       let itemWasAdded := hasItem (contentId item) result in
       if negb itemWasAdded then Throw (PlainError "Failed to add item to list")
       else Ret tt)
    (fun error =>
       if bool_decide (error_message error = already_exists_message) then Throw error
       else
         exists_ ← itemExists userId (contentId item);
         if exists_ : bool then Throw (PlainError already_exists_message)
         else log LError "Error adding item to MyList";; Throw error).

Definition removeItem (userId cid : string) : prog bool :=
  try_catch
    (now ← await DateNow;
     result ← await (MyListPull userId cid now);
     match result with
     | None => Ret false
     | Some doc =>
         let itemExists := hasItem cid doc in
         Ret (negb itemExists)
     end)
    (fun error => log LError "Error removing item from MyList";; Throw error).

(** [(a, b) => new Date(b.addedAt).getTime() - new Date(a.addedAt).getTime()] *)
Definition newest_first (a b : MyListItem) : Z := addedAt b - addedAt a.

(** The synchronous part of [getItemsPaginated], after [findOne] returned. *)
Definition paginate (myListDoc : option MyListDoc) (page limit : Z)
  : PaginatedMyListResult :=
  match myListDoc with
  | None =>
      {| result_items := [];
         result_pagination :=
           {| page := page; limit := limit; total := 0; totalPages := 0;
              hasNextPage := false; hasPreviousPage := false |} |}
  | Some doc =>
      let items := items doc in
      let total := Z.of_nat (length items) in
      let totalPages := Math_ceil_div total limit in
      let skip := (page - 1) * limit in
      let sortedItems := js_sort newest_first items in
      let paginatedItems := js_slice sortedItems skip (skip + limit) in
      {| result_items := paginatedItems;
         result_pagination :=
           {| page := page; limit := limit; total := total;
              totalPages := totalPages;
              hasNextPage := page <? totalPages;
              hasPreviousPage := 1 <? page |} |}
  end.

Definition getItemsPaginated (userId : string) (page limit : Z)
  : prog PaginatedMyListResult :=
  try_catch
    (myListDoc ← await (MyListFindOne userId);
     Ret (paginate myListDoc page limit))
    (fun error => log LError "Error getting paginated MyList items";; Throw error).

End MyListRepository.

(** ** CacheService *)

(** [private cache: ICacheService | null]: either no backend, or the
    process-wide backend whose contents are [w_cache]. *)
Inductive ICacheService := TheBackend.

Record CacheService := { cache : option ICacheService }.

Definition cacheDisabled : CacheService := {| cache := None |}.
Definition cacheActive : CacheService := {| cache := Some TheBackend |}.

Module CacheServiceImpl.

Definition CACHE_TTL_SECONDS : Z := 300.
Definition CACHE_PREFIX : string := "mylist".

Definition getListCacheKey (userId : string) (page limit : Z)
    (contentType : option ContentType) : string :=
  let baseKey := CACHE_PREFIX +:+ ":" +:+ userId +:+ ":" +:+ pretty page +:+ ":" +:+ pretty limit in
  match contentType with
  | Some t => baseKey +:+ ":" +:+ ContentType_to_string t
  | None => baseKey
  end.

Definition getUserCachePattern (userId : string) : string :=
  CACHE_PREFIX +:+ ":" +:+ userId +:+ ":*".

Definition getCachedList (this : CacheService) (userId : string) (page limit : Z)
    (contentType : option ContentType) : prog (option PaginatedMyListResponse) :=
  match cache this with
  | None => Ret None
  | Some _ =>
      try_catch
        (let cacheKey := getListCacheKey userId page limit contentType in
         cached ← await (CacheGet cacheKey);
         match cached with
         | Some c => log LDebug "Cache hit for MyList";; Ret (Some c)
         | None => log LDebug "Cache miss for MyList";; Ret None
         end)
        (fun error => log LError "Error getting cached MyList";; Ret None)
  end.

Definition setCachedList (this : CacheService) (userId : string) (page limit : Z)
    (data : PaginatedMyListResponse) (contentType : option ContentType) : prog unit :=
  match cache this with
  | None => Ret tt
  | Some _ =>
      try_catch
        (let cacheKey := getListCacheKey userId page limit contentType in
         await (CacheSet cacheKey data CACHE_TTL_SECONDS);;
         log LDebug "Cached MyList")
        (fun error => log LError "Error setting cached MyList")
  end.

Definition invalidateUserList (this : CacheService) (userId : string) : prog unit :=
  match cache this with
  | None => Ret tt
  | Some _ =>
      try_catch
        (let pattern := getUserCachePattern userId in
         await (CacheDeletePattern pattern);;
         log LDebug "Invalidated user MyList cache")
        (fun error => log LError "Error invalidating user MyList cache")
  end.

End CacheServiceImpl.

(** ** MyListService *)

Module MyListService.

Import CacheServiceImpl.

Definition is_add_error (e : Error) : bool :=
  match e with
  | ContentNotFoundError _ _ | DuplicateItemError _ | UserNotFoundError _ => true
  | _ => false
  end.

Definition addToMyList (cacheService : CacheService) (userId : string)
    (request : AddToMyListRequest) : prog unit :=
  try_catch
    (userExists ← UserRepository.exists_ userId;
     if negb userExists then Throw (UserNotFoundError userId)
     else
       contentExists ← ContentRepository.contentExists
                         (req_contentId request) (req_contentType request);
       if negb contentExists
       then Throw (ContentNotFoundError (req_contentId request) (req_contentType request))
       else
         itemExists ← MyListRepository.itemExists userId (req_contentId request);
         if itemExists : bool then Throw (DuplicateItemError (req_contentId request))
         else
           now ← await DateNow;
           let item := {| contentId := req_contentId request;
                          contentType := req_contentType request;
                          addedAt := now |} in
           MyListRepository.addItem userId item;;
           invalidateUserList cacheService userId;;
           log LInfo "Item added to MyList")
    (fun error =>
       if is_add_error error then Throw error
       else log LError "Error adding item to MyList";; Throw error).

Definition is_ItemNotFoundError (e : Error) : bool :=
  match e with ItemNotFoundError _ => true | _ => false end.

Definition removeFromMyList (cacheService : CacheService) (userId cid : string)
  : prog unit :=
  try_catch
    (removed ← MyListRepository.removeItem userId cid;
     if negb removed then Throw (ItemNotFoundError cid)
     else
       invalidateUserList cacheService userId;;
       log LInfo "Item removed from MyList")
    (fun error =>
       if is_ItemNotFoundError error then Throw error
       else log LError "Error removing item from MyList";; Throw error).

(** [x || d] on a number: [undefined] and [0] are falsy. *)
Definition or_default (x : option Z) (d : Z) : Z :=
  match x with
  | Some v => if v =? 0 then d else v
  | None => d
  end.

Definition withDetails (item : MyListItem) (content : Content) : MyListItemWithDetails :=
  let baseDetails :=
    {| d_contentId := contentId item; d_contentType := contentType item;
       d_title := content_title content; d_description := content_description content;
       d_genres := content_genres content; d_addedAt := addedAt item;
       d_releaseDate := None; d_director := None; d_actors := None;
       d_episodeCount := None |} in
  match content with
  | CMovie m =>
      {| d_contentId := d_contentId baseDetails; d_contentType := d_contentType baseDetails;
         d_title := d_title baseDetails; d_description := d_description baseDetails;
         d_genres := d_genres baseDetails; d_addedAt := d_addedAt baseDetails;
         d_releaseDate := Some (movie_releaseDate m);
         d_director := Some (movie_director m);
         d_actors := Some (movie_actors m);
         d_episodeCount := None |}
  | CTVShow t =>
      {| d_contentId := d_contentId baseDetails; d_contentType := d_contentType baseDetails;
         d_title := d_title baseDetails; d_description := d_description baseDetails;
         d_genres := d_genres baseDetails; d_addedAt := d_addedAt baseDetails;
         d_releaseDate := None; d_director := None; d_actors := None;
         d_episodeCount := Some (Z.of_nat (length (tvshow_episodes t))) |}
  end.

Definition getMyList (cacheService : CacheService) (userId : string)
    (query : ListMyItemsQuery) : prog PaginatedMyListResponse :=
  try_catch
    (let pageNo := or_default (query_page query) 1 in
     let pageLimit := or_default (query_limit query) 10 in
     let typeFilter := query_contentType query in
     cached ← getCachedList cacheService userId pageNo pageLimit typeFilter;
     match cached with
     | Some c => Ret c
     | None =>
         result ← MyListRepository.getItemsPaginated userId pageNo pageLimit;
         if Z.of_nat (length (result_items result)) =? 0
         then
           let emptyResponse :=
             {| data := []; pagination := result_pagination result |} in
           setCachedList cacheService userId pageNo pageLimit emptyResponse typeFilter;;
           Ret emptyResponse
         else
           let itemsToProcess :=
             match typeFilter with
             | Some t => filter (fun item => contentType item = t) (result_items result)
             | None => result_items result
             end in
           contentDetails ← ContentRepository.findContentsByIds
                              ((fun item => (contentId item, contentType item))
                                 <$> itemsToProcess);
           mapped ← mapM
             (fun item =>
                match List.find (fun c => bool_decide (content_id c = contentId item))
                                contentDetails with
                | None => log LWarn "Content not found for MyList item";; Ret None
                | Some content => Ret (Some (withDetails item content))
                end)
             itemsToProcess;
           let itemsWithDetails := omap id mapped in
           let pagination :=
             match typeFilter with
             | Some _ =>
                 let totalFiltered := Z.of_nat (length itemsWithDetails) in
                 {| page := page (result_pagination result);
                    limit := limit (result_pagination result);
                    total := totalFiltered;
                    totalPages := Math_ceil_div totalFiltered pageLimit;
                    hasNextPage := pageNo <? Math_ceil_div totalFiltered pageLimit;
                    hasPreviousPage := 1 <? pageNo |}
             | None => result_pagination result
             end in
           let response := {| data := itemsWithDetails; pagination := pagination |} in
           setCachedList cacheService userId pageNo pageLimit response typeFilter;;
           log LInfo "Retrieved MyList";;
           Ret response
     end)
    (fun error => log LError "Error getting MyList";; Throw error).

End MyListService.

(** ** What a completed run looks like, compositionally *)

Definition run_then {A B : Type} (x : (Error + A) * World * list event)
    (f : A -> World -> (Error + B) * World * list event)
  : (Error + B) * World * list event :=
  match x with
  | (inr a, w', tr) => let '(r, w'', tr') := f a w' in (r, w'', (tr ++ tr')%list)
  | (inl e, w', tr) => (inl e, w', tr)
  end.

Definition run_catch {A : Type} (x : (Error + A) * World * list event)
    (h : Error -> World -> (Error + A) * World * list event)
  : (Error + A) * World * list event :=
  match x with
  | (inl e, w', tr) => let '(r, w'', tr') := h e w' in (r, w'', (tr ++ tr')%list)
  | (inr a, w', tr) => (inr a, w', tr)
  end.

(** ** Reading the collections directly *)

Definition user_exists (w : World) (u : string) : bool :=
  bool_decide (u ∈ w_users w).

Definition content_exists (w : World) (cid : string) (ct : ContentType) : bool :=
  match ct with
  | Movie => bool_decide (cid ∈ movie_id <$> w_movies w)
  | TVShow => bool_decide (cid ∈ tvshow_id <$> w_tvshows w)
  end.

Definition user_items (w : World) (u : string) : list MyListItem :=
  match w_mylists w !! u with
  | Some d => items d
  | None => []
  end.

Definition in_list (w : World) (u cid : string) : bool :=
  bool_decide (cid ∈ contentId <$> user_items w u).

(** The aggregate of [u] once [item] has been pushed at time [now]. *)
Definition pushed (w : World) (u : string) (item : MyListItem) (now : Z) : MyListDoc :=
  match w_mylists w !! u with
  | Some d => {| items := items d ++ [item]; createdAt := createdAt d; updatedAt := now |}
  | None => {| items := [item]; createdAt := w_clock w; updatedAt := now |}
  end.

(** The aggregate [d] once every entry with [cid] has been pulled at time [now]. *)
Definition pulled (d : MyListDoc) (cid : string) (now : Z) : MyListDoc :=
  {| items := filter (fun it => contentId it ≠ cid) (items d);
     createdAt := createdAt d; updatedAt := now |}.

(** What [getCachedList] answers: nothing without a backend, on a rejected
    call, on an absent key or on an expired entry. *)
Definition cached_value (cs : CacheService) (w : World) (key : string)
  : option PaginatedMyListResponse :=
  match cache cs with
  | None => None
  | Some _ =>
      if w_cache_rejects w CallGet then None
      else
        match w_cache w !! key with
        | Some e => if expired (w_clock w) e then None else Some (entry_value e)
        | None => None
        end
  end.

(** The page of raw entries the store hands to the engine. *)
Definition fetched_page (w : World) (u : string) (page limit : Z) : list MyListItem :=
  js_slice (js_sort MyListRepository.newest_first (user_items w u))
           ((page - 1) * limit) ((page - 1) * limit + limit).

(** The catalogue document an entry refers to: the one of the entry's own
    type with the entry's id (the last such, should ids repeat). *)
Definition resolve (w : World) (it : MyListItem) : option Content :=
  match contentType it with
  | Movie => CMovie <$> last (filter (fun m => movie_id m = contentId it) (w_movies w))
  | TVShow => CTVShow <$> last (filter (fun t => tvshow_id t = contentId it) (w_tvshows w))
  end.

Definition with_rejects (rej : CacheCall -> bool) (w : World) : World :=
  {| w_users := w_users w; w_movies := w_movies w; w_tvshows := w_tvshows w;
     w_mylists := w_mylists w; w_cache := w_cache w;
     w_cache_rejects := rej; w_regexp_host := w_regexp_host w;
     w_clock := w_clock w |}.

(** The value [findContentsByIds] resolves to. *)
Definition contents_found (w : World) (contentIds : list (string * ContentType))
  : list Content :=
  let movieIds := (filter (fun item => item.2 = Movie) contentIds).*1 in
  let tvShowIds := (filter (fun item => item.2 = TVShow) contentIds).*1 in
  let movieDocs := filter (fun m => movie_id m ∈ movieIds) (w_movies w) in
  let tvShowDocs := filter (fun t => tvshow_id t ∈ tvShowIds) (w_tvshows w) in
  let contentMap := ContentRepository.contentMap_of movieDocs tvShowDocs in
  omap (fun item => contentMap !! item.1) contentIds.

(** The response [getMyList] assembles when the cache has nothing to offer. *)
Definition fresh_response (w : World) (u : string) (query : ListMyItemsQuery)
  : PaginatedMyListResponse :=
  let pageNo := MyListService.or_default (query_page query) 1 in
  let pageLimit := MyListService.or_default (query_limit query) 10 in
  let typeFilter := query_contentType query in
  let result := MyListRepository.paginate (w_mylists w !! u) pageNo pageLimit in
  if Z.of_nat (length (result_items result)) =? 0
  then {| data := []; pagination := result_pagination result |}
  else
    let itemsToProcess :=
      match typeFilter with
      | Some t => filter (fun item => contentType item = t) (result_items result)
      | None => result_items result
      end in
    let contentDetails :=
      contents_found w ((fun item => (contentId item, contentType item)) <$> itemsToProcess) in
    let itemsWithDetails :=
      omap (fun item =>
              MyListService.withDetails item <$>
                List.find (fun c => bool_decide (content_id c = contentId item)) contentDetails)
           itemsToProcess in
    let pagination :=
      match typeFilter with
      | Some _ =>
          let totalFiltered := Z.of_nat (length itemsWithDetails) in
          {| page := page (result_pagination result);
             limit := limit (result_pagination result);
             total := totalFiltered;
             totalPages := Math_ceil_div totalFiltered pageLimit;
             hasNextPage := pageNo <? Math_ceil_div totalFiltered pageLimit;
             hasPreviousPage := 1 <? pageNo |}
      | None => result_pagination result
      end in
    {| data := itemsWithDetails; pagination := pagination |}.

Definition query_key (u : string) (query : ListMyItemsQuery) : string :=
  CacheServiceImpl.getListCacheKey u
    (MyListService.or_default (query_page query) 1)
    (MyListService.or_default (query_limit query) 10)
    (query_contentType query).

(** ** A small catalogue and store to evaluate the operations on *)

Definition demo_movie (id title : string) : MovieDoc :=
  {| movie_id := id; movie_title := title; movie_description := "a film";
     movie_genres := [Action; SciFi]; movie_releaseDate := 922838400000;
     movie_director := "a director"; movie_actors := ["an actor"] |}.

Definition demo_tvshow (id title : string) : TVShowDoc :=
  {| tvshow_id := id; tvshow_title := title; tvshow_description := "a show";
     tvshow_genres := [Drama];
     tvshow_episodes :=
       [{| episodeNumber := 1; seasonNumber := 1; episode_releaseDate := 1577836800000;
           episode_director := "a director"; episode_actors := [] |}] |}.

Definition demo_item (cid : string) (ct : ContentType) (t : Z) : MyListItem :=
  {| contentId := cid; contentType := ct; addedAt := t |}.

(** [user-1] has three entries, two of them added at the same instant;
    [user-2] never added anything. *)
Definition demo_world : World :=
  {| w_users := ["user-1"; "user-2"];
     w_movies := [demo_movie "movie-1" "The Matrix"; demo_movie "movie-2" "Inception";
                  demo_movie "movie-3" "Interstellar"];
     w_tvshows := [demo_tvshow "tvshow-1" "Breaking Bad"];
     w_mylists :=
       {[ "user-1" :=
            {| items := [demo_item "movie-1" Movie 100; demo_item "tvshow-1" TVShow 200;
                         demo_item "movie-2" Movie 200];
               createdAt := 100; updatedAt := 200 |} ]};
     w_cache := ∅;
     w_cache_rejects := fun _ => false;
     w_regexp_host := fun _ => None;
     w_clock := 1000 |}.

(** No two entries share an id under different types.  It holds of every
    list whose [contentId]s are pairwise distinct. *)
Definition type_consistent (l : list MyListItem) : Prop :=
  ∀ a b, a ∈ l -> b ∈ l -> contentId a = contentId b -> contentType a = contentType b.

(** The catalogue has lost [movie-2], which [user-1] still lists. *)
Definition stale_world : World :=
  {| w_users := w_users demo_world;
     w_movies := [demo_movie "movie-1" "The Matrix"; demo_movie "movie-3" "Interstellar"];
     w_tvshows := w_tvshows demo_world;
     w_mylists := w_mylists demo_world;
     w_cache := ∅;
     w_cache_rejects := fun _ => false;
     w_regexp_host := fun _ => None;
     w_clock := 1000 |}.

Definition demo_query (p l : Z) (t : option ContentType) : ListMyItemsQuery :=
  {| query_page := Some p; query_limit := Some l; query_contentType := t |}.

(** Users whose ids meet the cache's key syntax: [user-1:kids] extends
    [user-1] past a colon, [team-mylist] ends in the key prefix, and
    [ann+tv@example.com] carries a [+]. *)
Definition shared_world : World :=
  {| w_users := ["user-1"; "user-1:kids"; "7"; "team-mylist"; "ann+tv@example.com"];
     w_movies := w_movies demo_world;
     w_tvshows := w_tvshows demo_world;
     w_mylists :=
       {[ "user-1:kids" :=
            {| items := [demo_item "movie-3" Movie 300]; createdAt := 300; updatedAt := 300 |} ]};
     w_cache := ∅;
     w_cache_rejects := fun _ => false;
     w_regexp_host := fun _ => None;
     w_clock := 1000 |}.

Definition demo_request (cid : string) (ct : ContentType) : AddToMyListRequest :=
  {| req_contentId := cid; req_contentType := ct |}.

Definition reject_reads (rej : CacheCall -> bool) (c : CacheCall) : bool :=
  match c with
  | CallGet => true
  | _ => rej c
  end.

(** ** Exploring every interleaving *)

Definition is_pending {A : Type} (p : prog A) : bool :=
  match p with Await _ _ => true | _ => false end.

Definition succeeded {A : Type} (p : prog A) : bool :=
  match p with Ret _ => true | _ => false end.

Definition runnable {A : Type} (tasks : list (prog A)) : list nat :=
  List.filter (fun i => match tasks !! i with Some p => is_pending p | None => false end)
              (seq 0 (length tasks)).

(** [check] holds of the final state of every complete interleaving of
    [tasks]; [fuel] bounds the number of steps. *)
Fixpoint all_interleavings {A : Type} (check : list (prog A) -> World -> bool)
    (fuel : nat) (tasks : list (prog A)) (w : World) : bool :=
  match fuel with
  | O => false
  | S n =>
      match runnable tasks with
      | [] => check tasks w
      | next => forallb (fun i => let '(ts', w') := sched [i] tasks w in
                                  all_interleavings check n ts' w') next
      end
  end.

(** Two requests for the same entry, in flight together. *)
Definition racing_adds (u cid : string) (ct : ContentType) : list (prog unit) :=
  [MyListService.addToMyList cacheActive u (demo_request cid ct);
   MyListService.addToMyList cacheActive u (demo_request cid ct)].

(** Both calls pass both pre-checks before either writes. *)
Definition tight_race : list nat :=
  [0; 1; 0; 1; 0; 1; 0; 1; 0; 1; 0; 1; 0; 1; 0; 0; 0; 1; 1]%nat.

Definition is_duplicate_signal (p : prog unit) : bool :=
  match p with
  | Throw (DuplicateItemError _) => true
  | Throw (PlainError m) => bool_decide (m = already_exists_message)
  | _ => false
  end.

(** One winner, one loser told the entry exists, one entry stored. *)
Definition one_winner (u cid : string) (tasks : list (prog unit)) (w : World) : bool :=
  bool_decide (length (List.filter succeeded tasks) = 1%nat) &&
  bool_decide (length (List.filter is_duplicate_signal tasks) = 1%nat) &&
  bool_decide (length (List.filter (fun it => bool_decide (contentId it = cid))
                                   (user_items w u)) = 1%nat).

(** An id none of whose characters is regular-expression syntax. *)
Fixpoint plain_id (s : string) : bool :=
  match s with
  | EmptyString => true
  | String c s' => negb (is_syntax_char c) && plain_id s'
  end.

(** The atoms a plain string compiles to. *)
Fixpoint literal_atoms (s : string) : list (atom * quant) :=
  match s with
  | EmptyString => []
  | String c s' => (atom_of c, QOne) :: literal_atoms s'
  end.

(** ** Further code of the cited files *)

(** *** MyListSchema instance methods ([models/MyList.model.ts])

    [hasItem] is the [some] test already written as [hasItem] above. *)
Module MyListSchema.

(** [addItem(item)]: push and stamp, or throw when the id is present. *)
Definition addItem (this : MyListDoc) (item : MyListItem) (now : Z) : Error + MyListDoc :=
  if negb (hasItem (contentId item) this)
  then inr {| items := items this ++ [item];
              createdAt := createdAt this; updatedAt := now |}
  else inl (PlainError already_exists_message).

(** [removeItem(contentId)]: filter, stamp and answer [true] when the list got
    shorter; answer [false] otherwise. *)
Definition removeItem (this : MyListDoc) (cid : string) (now : Z) : bool * MyListDoc :=
  let initialLength := Z.of_nat (length (items this)) in
  let filtered := filter (fun it => contentId it ≠ cid) (items this) in
  let this1 := {| items := filtered; createdAt := createdAt this;
                  updatedAt := updatedAt this |} in
  if Z.of_nat (length (items this1)) <? initialLength
  then (true, {| items := filtered; createdAt := createdAt this; updatedAt := now |})
  else (false, this1).

End MyListSchema.

(** *** The remaining read operations of MyListRepository *)
Module MyListRepositoryReads.

(** [toDomainModel] copies the fields; the [Date]s are kept as numbers
    throughout, so the copy is the document itself. *)
Definition toDomainModel (doc : MyListDoc) : MyListDoc :=
  {| items := (fun item => {| contentId := contentId item;
                              contentType := contentType item;
                              addedAt := addedAt item |}) <$> items doc;
     createdAt := createdAt doc; updatedAt := updatedAt doc |}.

Definition findByUserId (userId : string) : prog (option MyListDoc) :=
  try_catch
    (myListDoc ← await (MyListFindOne userId);
     match myListDoc with
     | None => Ret None
     | Some doc => Ret (Some (toDomainModel doc))
     end)
    (fun error => log LError "Error finding MyList by user ID";; Throw error).

(** [myListDoc.items?.length || 0] *)
Definition getItemCount (userId : string) : prog Z :=
  try_catch
    (myListDoc ← await (MyListFindOne userId);
     match myListDoc with
     | None => Ret 0
     | Some doc => Ret (MyListService.or_default (Some (Z.of_nat (length (items doc)))) 0)
     end)
    (fun error => log LError "Error getting MyList item count";; Throw error).

End MyListRepositoryReads.

(** *** InMemoryCacheService: the expiry sweep of the constructor

    Every minute: [for (key, entry) if (entry.expiry && entry.expiry < now)
    cache.delete(key)]. *)
Definition sweep (now : Z) (m : gmap string CacheEntry) : gmap string CacheEntry :=
  filter (fun kv => expired now kv.2 = false) m.

(** The items of one page, as [getItemsPaginated] returns them. *)
Definition page_items (w : World) (u : string) (page limit : Z) : list MyListItem :=
  match result_of (run (MyListRepository.getItemsPaginated u page limit) w) with
  | inr r => result_items r
  | inl _ => []
  end.

Definition page_count (w : World) (u : string) (limit : Z) : Z :=
  match result_of (run (MyListRepository.getItemsPaginated u 1 limit) w) with
  | inr r => totalPages (result_pagination r)
  | inl _ => 0
  end.

(** Strings made of decimal digits and [-] only, as [String(n)] prints an
    integer. *)
Fixpoint numeric (s : string) : bool :=
  match s with
  | EmptyString => true
  | String c s' =>
      bool_decide (c ∈ ["0"; "1"; "2"; "3"; "4"; "5"; "6"; "7"; "8"; "9"; "-"]%char)
      && numeric s'
  end.

Fixpoint colon_free (s : string) : bool :=
  match s with
  | EmptyString => true
  | String c s' => negb (bool_decide (c = ":"%char)) && colon_free s'
  end.

(** The catalogue document of a given id and type (the last such). *)
Definition catalogue_entry (w : World) (cid : string) (ct : ContentType) : option Content :=
  match ct with
  | Movie => CMovie <$> last (filter (fun m => movie_id m = cid) (w_movies w))
  | TVShow => CTVShow <$> last (filter (fun t => tvshow_id t = cid) (w_tvshows w))
  end.

(** An unfiltered request for the first page. *)
Definition first_page (limit : Z) : ListMyItemsQuery :=
  {| query_page := None; query_limit := Some limit; query_contentType := None |}.

(** Every page the cache holds is the page [getMyList] would assemble now. *)
Definition coherent (w : World) : Prop :=
  ∀ u q e, w_cache w !! query_key u q = Some e -> entry_value e = fresh_response w u q.

(** ** The HTTP layer *)

(** [dtos/myList.dto] *)
Record MyListItemResponseDto := {
  dto_contentId    : string;
  dto_contentType  : ContentType;
  dto_title        : string;
  dto_description  : string;
  dto_genres       : list Genre;
  dto_addedAt      : string;
  dto_releaseDate  : option string;
  dto_director     : option string;
  dto_actors       : option (list string);
  dto_episodeCount : option Z;
}.

Record PaginatedMyListResponseDto := {
  dto_data       : list MyListItemResponseDto;
  dto_pagination : PaginationMeta;
}.

(** [details] is set for validation errors alone, which no service call
    throws; it is left out. *)
Record ErrorResponseDto := {
  err_code    : string;
  err_message : string;
  err_traceId : string;
}.

Record SuccessResponseDto := {
  success         : bool;
  success_message : string;
  success_data    : AddToMyListRequest;
}.

(** What the handler hands to [res]: [res.status(s).json(b)] or
    [res.status(s).send()]. *)
Inductive ResponseBody :=
  | JsonSuccess (r : SuccessResponseDto)
  | JsonPage (r : PaginatedMyListResponseDto)
  | JsonError (r : ErrorResponseDto)
  | NoContent.

Record HttpResponse := {
  status : Z;
  body   : ResponseBody;
}.

(** An error passed to [next], with the properties [handleError] attached
    to it. *)
Record RoutedError := {
  routed        : Error;
  statusCode    : option Z;
  errorResponse : option ErrorResponseDto;
}.

(** [req.query] of the list endpoint. *)
Record RawQuery := {
  raw_page        : option string;
  raw_limit       : option string;
  raw_contentType : option ContentType;
}.

Module MyListDto.
Section Dates.

(** [Date.prototype.toISOString], left abstract. *)
Variable toISOString : Z -> string.

Definition toMyListItemResponseDto (item : MyListItemWithDetails) : MyListItemResponseDto :=
  {| dto_contentId := d_contentId item;
     dto_contentType := d_contentType item;
     dto_title := d_title item;
     dto_description := d_description item;
     dto_genres := d_genres item;
     dto_addedAt := toISOString (d_addedAt item);
     dto_releaseDate := toISOString <$> d_releaseDate item;
     dto_director := d_director item;
     dto_actors := d_actors item;
     dto_episodeCount := d_episodeCount item |}.

Definition toPaginatedMyListResponseDto (response : PaginatedMyListResponse)
  : PaginatedMyListResponseDto :=
  {| dto_data := toMyListItemResponseDto <$> data response;
     dto_pagination :=
       {| page := page (pagination response);
          limit := limit (pagination response);
          total := total (pagination response);
          totalPages := totalPages (pagination response);
          hasNextPage := hasNextPage (pagination response);
          hasPreviousPage := hasPreviousPage (pagination response) |} |}.

End Dates.
End MyListDto.

Module ErrorMiddleware.

(** [errorHandler], the last middleware of the application, on a response
    whose headers were not sent yet. *)
Definition errorHandler (error : RoutedError) (reqTraceId : option string)
  : prog HttpResponse :=
  let traceId := match reqTraceId with
                 | Some t => if bool_decide (t = "") then "unknown" else t
                 | None => "unknown"
                 end in
  let statusCode := MyListService.or_default (statusCode error) 500 in
  let errorResponse :=
    match errorResponse error with
    | Some r => r
    | None => {| err_code := "INTERNAL_SERVER_ERROR";
                 err_message := "An unexpected error occurred";
                 err_traceId := traceId |}
    end in
  (if 500 <=? statusCode then log LError "Server error"
   else log LWarn "Client error");;
  Ret {| status := statusCode; body := JsonError errorResponse |}.

End ErrorMiddleware.

Module MyListController.
Section Http.

(** [Date.prototype.toISOString] and [parseInt(s, 10)] ([None] for [NaN]),
    left abstract. *)
Variable toISOString : Z -> string.
Variable parseInt : string -> option Z.

(** None of the errors of the model carries [details], so the branch for
    validation errors is never taken. *)
Definition handleError (error : Error) (traceId operation : string) : prog RoutedError :=
  match error with
  | ContentNotFoundError _ _ =>
      Ret {| routed := error; statusCode := Some 404;
             errorResponse := Some {| err_code := "CONTENT_NOT_FOUND";
                                      err_message := error_message error;
                                      err_traceId := traceId |} |}
  | DuplicateItemError _ =>
      Ret {| routed := error; statusCode := Some 409;
             errorResponse := Some {| err_code := "DUPLICATE_ITEM";
                                      err_message := error_message error;
                                      err_traceId := traceId |} |}
  | ItemNotFoundError _ =>
      Ret {| routed := error; statusCode := Some 404;
             errorResponse := Some {| err_code := "ITEM_NOT_FOUND";
                                      err_message := error_message error;
                                      err_traceId := traceId |} |}
  | UserNotFoundError _ =>
      Ret {| routed := error; statusCode := Some 404;
             errorResponse := Some {| err_code := "USER_NOT_FOUND";
                                      err_message := error_message error;
                                      err_traceId := traceId |} |}
  | PlainError _ =>
      log LError "Unexpected error in MyListController";;
      Ret {| routed := error; statusCode := Some 500;
             errorResponse := Some {| err_code := "INTERNAL_SERVER_ERROR";
                                      err_message := "An unexpected error occurred";
                                      err_traceId := traceId |} |}
  end.

(** [next(err)]: the application routes the error to [errorHandler]. *)
Definition next (reqTraceId : option string) (error : RoutedError) : prog HttpResponse :=
  ErrorMiddleware.errorHandler error reqTraceId.

(** [traceId] is the [uuidv4()] drawn at the start of the handler,
    [reqTraceId] the one the request logger attached to the request. *)
Definition addToMyList (cacheService : CacheService) (userId : string)
    (reqBody : AddToMyListRequest) (traceId : string) (reqTraceId : option string)
  : prog HttpResponse :=
  try_catch
    (let request := {| req_contentId := req_contentId reqBody;
                       req_contentType := req_contentType reqBody |} in
     MyListService.addToMyList cacheService userId request;;
     let response := {| success := true;
                        success_message := "Item added to MyList successfully";
                        success_data := {| req_contentId := req_contentId request;
                                           req_contentType := req_contentType request |} |} in
     log LInfo "Item added to MyList";;
     Ret {| status := 201; body := JsonSuccess response |})
    (fun error => e ← handleError error traceId "addToMyList"; next reqTraceId e).

Definition removeFromMyList (cacheService : CacheService) (userId : string)
    (paramContentId : string) (traceId : string) (reqTraceId : option string)
  : prog HttpResponse :=
  try_catch
    (MyListService.removeFromMyList cacheService userId paramContentId;;
     log LInfo "Item removed from MyList";;
     Ret {| status := 204; body := NoContent |})
    (fun error => e ← handleError error traceId "removeFromMyList"; next reqTraceId e).

Definition getMyList (cacheService : CacheService) (userId : string)
    (reqQuery : RawQuery) (traceId : string) (reqTraceId : option string)
  : prog HttpResponse :=
  try_catch
    (let query :=
       {| query_page := match raw_page reqQuery with
                        | Some s => if bool_decide (s = "") then None else parseInt s
                        | None => None
                        end;
          query_limit := match raw_limit reqQuery with
                         | Some s => if bool_decide (s = "") then None else parseInt s
                         | None => None
                         end;
          query_contentType := raw_contentType reqQuery |} in
     result ← MyListService.getMyList cacheService userId query;
     let response := MyListDto.toPaginatedMyListResponseDto toISOString result in
     log LInfo "Retrieved MyList";;
     Ret {| status := 200; body := JsonPage response |})
    (fun error => e ← handleError error traceId "getMyList"; next reqTraceId e).

End Http.
End MyListController.

(** The reply the error middleware sends for a service error the controller
    recognised. *)
Definition error_reply (code : Z) (name : string) (e : Error) (traceId : string)
  : HttpResponse :=
  {| status := code;
     body := JsonError {| err_code := name; err_message := error_message e;
                          err_traceId := traceId |} |}.

(** The query the list endpoint builds from [req.query]. *)
Definition parsed_query (parseInt : string -> option Z) (reqQuery : RawQuery)
  : ListMyItemsQuery :=
  {| query_page := match raw_page reqQuery with
                   | Some s => if bool_decide (s = "") then None else parseInt s
                   | None => None
                   end;
     query_limit := match raw_limit reqQuery with
                    | Some s => if bool_decide (s = "") then None else parseInt s
                    | None => None
                    end;
     query_contentType := raw_contentType reqQuery |}.

(** The store's invariant: no list names a [contentId] twice. *)
Definition ids_distinct (w : World) : Prop :=
  ∀ u, NoDup (contentId <$> user_items w u).

(** A read and an add of the same user in flight together. *)
Definition read_during_add (u cid : string) (ct : ContentType) (q : ListMyItemsQuery)
  : list (prog (unit + PaginatedMyListResponse)) :=
  [r ← MyListService.getMyList cacheActive u q; Ret (inr r);
   r ← MyListService.addToMyList cacheActive u (demo_request cid ct); Ret (inl r)].

(** A call that has run to its end. *)
Definition settled {A : Type} (r : Error + A) : prog A :=
  match r with
  | inr a => Ret a
  | inl e => Throw e
  end.

(** * Proofs *)

(** ** Running composite programs *)

Lemma run_bind {A B : Type} (p : prog A) (f : A -> prog B) (w : World) :
  run (p ≫= f) w = run_then (run p w) (fun a w' => run (f a) w').
Proof.
  unfold mbind, prog_bind. revert w.
  induction p as [a|e|R o k IH]; intros w; cbn.
  - by destruct (run (f a) w) as [[r w'] tr].
  - done.
  - destruct (handle o w) as [r w']. rewrite IH.
    destruct (run (k r) w') as [[[e|a] w''] tr]; cbn; [done|].
    by destruct (run (f a) w'') as [[r' w3] tr'].
Qed.

Lemma run_try_catch {A : Type} (p : prog A) (h : Error -> prog A) (w : World) :
  run (try_catch p h) w = run_catch (run p w) (fun e w' => run (h e) w').
Proof.
  revert w. induction p as [a|e|R o k IH]; intros w; cbn.
  - done.
  - by destruct (run (h e) w) as [[r w'] tr].
  - destruct (handle o w) as [r w']. rewrite IH.
    destruct (run (k r) w') as [[[e|a] w''] tr]; cbn; [|done].
    by destruct (run (h e) w'') as [[r' w3] tr'].
Qed.

Lemma run_await {R : Type} (o : op R) (w : World) :
  run (await o) w = (let '(r, w') := handle o w in (r, w', [Ev o])).
Proof. unfold await. cbn. by destruct (handle o w) as [[e|v] w']. Qed.

Lemma run_log (l : LogLevel) (m : string) (w : World) :
  run (log l m) w = (inr tt, w, [Ev (Log l m)]).
Proof. done. Qed.

Lemma run_ret {A : Type} (a : A) (w : World) : run (Ret a) w = (inr a, w, []).
Proof. done. Qed.

Lemma run_throw {A : Type} (e : Error) (w : World) : run (@Throw A e) w = (inl e, w, []).
Proof. done. Qed.

(** ** Counting and membership *)

Lemma count_filter_pos {A : Type} (P : A -> Prop) `{!∀ x, Decision (P x)} (l : list A) :
  (0 <? Z.of_nat (length (filter P l))) = bool_decide (Exists P l).
Proof.
  induction l as [|x l IH]; [done|].
  rewrite filter_cons. destruct (decide (P x)) as [Hp|Hp].
  - cbn [length]. rewrite (bool_decide_eq_true_2 _ (Exists_cons_hd P x l Hp)).
    apply Z.ltb_lt. lia.
  - rewrite IH. apply bool_decide_ext. rewrite Exists_cons. tauto.
Qed.

Lemma count_eq_pos (id : string) (l : list string) :
  (0 <? Z.of_nat (length (filter (fun u => u = id) l))) = bool_decide (id ∈ l).
Proof.
  rewrite count_filter_pos. apply bool_decide_ext.
  rewrite Exists_exists. naive_solver.
Qed.

Lemma count_key_pos {A : Type} (f : A -> string) (id : string) (l : list A) :
  (0 <? Z.of_nat (length (filter (fun x => f x = id) l))) = bool_decide (id ∈ f <$> l).
Proof.
  rewrite count_filter_pos. apply bool_decide_ext.
  rewrite Exists_exists, list_elem_of_fmap. naive_solver.
Qed.

Lemma hasItem_in (cid : string) (d : MyListDoc) :
  hasItem cid d = bool_decide (cid ∈ contentId <$> items d).
Proof.
  unfold hasItem. induction (items d) as [|x l IH]; [done|].
  cbn [existsb fmap list_fmap]. rewrite IH.
  destruct (decide (contentId x = cid)) as [<-|Hne].
  - rewrite bool_decide_eq_true_2 by done. symmetry. apply bool_decide_eq_true_2. left.
  - rewrite (bool_decide_eq_false_2 _ Hne). cbn. apply bool_decide_ext.
    rewrite elem_of_cons. naive_solver.
Qed.

(** ** The repositories, call by call *)

Lemma run_UserRepository_exists (u : string) (w : World) :
  run (UserRepository.exists_ u) w = (inr (user_exists w u), w, [Ev (UserCountDocuments u)]).
Proof.
  unfold UserRepository.exists_, user_exists. cbn. by rewrite count_eq_pos.
Qed.

Lemma run_contentExists (cid : string) (ct : ContentType) (w : World) :
  run (ContentRepository.contentExists cid ct) w =
  (inr (content_exists w cid ct), w,
   [match ct with
    | Movie => Ev (MovieCountDocuments cid)
    | TVShow => Ev (TVShowCountDocuments cid)
    end]).
Proof.
  unfold ContentRepository.contentExists, content_exists.
  destruct ct; cbn; by rewrite count_key_pos.
Qed.

Lemma run_itemExists (u cid : string) (w : World) :
  run (MyListRepository.itemExists u cid) w =
  (inr (in_list w u cid), w, [Ev (MyListFindOneWithItem u cid)]).
Proof.
  unfold MyListRepository.itemExists, in_list, user_items. cbn.
  destruct (w_mylists w !! u) as [d|]; [|done].
  rewrite hasItem_in. by destruct (bool_decide (cid ∈ contentId <$> items d)).
Qed.

Lemma hasItem_pushed (w : World) (u : string) (item : MyListItem) (now : Z) :
  hasItem (contentId item) (pushed w u item now) = true.
Proof.
  rewrite hasItem_in. apply bool_decide_eq_true_2. unfold pushed.
  destruct (w_mylists w !! u); cbn; rewrite ?fmap_app; set_solver.
Qed.

Lemma hasItem_pulled (d : MyListDoc) (cid : string) (now : Z) :
  hasItem cid (pulled d cid now) = false.
Proof.
  rewrite hasItem_in. apply bool_decide_eq_false_2. unfold pulled. cbn.
  rewrite list_elem_of_fmap. intros (it & -> & Hin).
  apply list_elem_of_filter in Hin. naive_solver.
Qed.

Lemma in_list_hasItem (w : World) (u cid : string) :
  in_list w u cid =
  match w_mylists w !! u with Some d => hasItem cid d | None => false end.
Proof.
  unfold in_list, user_items. destruct (w_mylists w !! u) as [d|].
  - by rewrite hasItem_in.
  - done.
Qed.

Lemma run_addItem_fresh (u : string) (item : MyListItem) (w : World) :
  in_list w u (contentId item) = false ->
  run (MyListRepository.addItem u item) w =
  (inr tt, set_mylists (insert u (pushed w u item (w_clock w))) w,
   [Ev (MyListFindOneWithItem u (contentId item)); Ev DateNow;
    Ev (MyListPushUpsert u item (w_clock w))]).
Proof.
  intros Hfresh. unfold MyListRepository.addItem.
  rewrite run_try_catch, run_bind, run_itemExists, Hfresh.
  cbn [run_then]. rewrite run_bind, run_await. cbn [handle run_then].
  rewrite run_bind, run_await. cbn [handle].
  pose proof (hasItem_pushed w u item (w_clock w)) as Hadded.
  rewrite in_list_hasItem in Hfresh. unfold pushed in *.
  destruct (w_mylists w !! u) as [d|].
  - rewrite Hfresh. cbn [run_then]. by rewrite Hadded.
  - cbn [run_then]. by rewrite Hadded.
Qed.

Lemma run_addItem_present (u : string) (item : MyListItem) (w : World) :
  in_list w u (contentId item) = true ->
  run (MyListRepository.addItem u item) w =
  (inl (PlainError already_exists_message), w,
   [Ev (MyListFindOneWithItem u (contentId item))]).
Proof.
  intros Hin. unfold MyListRepository.addItem.
  by rewrite run_try_catch, run_bind, run_itemExists, Hin.
Qed.

Lemma run_removeItem (u cid : string) (w : World) :
  run (MyListRepository.removeItem u cid) w =
  match w_mylists w !! u with
  | Some d =>
      (inr true, set_mylists (insert u (pulled d cid (w_clock w))) w,
       [Ev DateNow; Ev (MyListPull u cid (w_clock w))])
  | None => (inr false, w, [Ev DateNow; Ev (MyListPull u cid (w_clock w))])
  end.
Proof.
  unfold MyListRepository.removeItem.
  rewrite run_try_catch, run_bind, run_await. cbn [handle run_then].
  rewrite run_bind, run_await. cbn [handle].
  destruct (w_mylists w !! u) as [d|]; cbn [run_then]; [|done].
  fold (pulled d cid (w_clock w)). by rewrite hasItem_pulled.
Qed.

Lemma run_invalidateUserList (cs : CacheService) (u : string) (w : World) :
  ∃ f tr, run (CacheServiceImpl.invalidateUserList cs u) w = (inr tt, set_cache f w, tr).
Proof.
  unfold CacheServiceImpl.invalidateUserList.
  assert (Hid : w = set_cache (fun m => m) w) by by destruct w.
  destruct (cache cs) as [b|]; cbn.
  - destruct (w_cache_rejects w CallDeletePattern); cbn.
    { exists (fun m => m). eexists. by rewrite <- Hid. }
    destruct (RegExp w _) as [test|]; cbn.
    + eexists. eexists. reflexivity.
    + exists (fun m => m). eexists. by rewrite <- Hid.
  - exists (fun m => m). eexists. by rewrite <- Hid.
Qed.

(** ** AddToList and RemoveFromList, one call *)

Lemma run_addToMyList (cs : CacheService) (w : World) (u : string)
    (request : AddToMyListRequest) :
  let cid := req_contentId request in
  let ct := req_contentType request in
  let content_lookup :=
    match ct with
    | Movie => Ev (MovieCountDocuments cid)
    | TVShow => Ev (TVShowCountDocuments cid)
    end in
  let item := {| contentId := cid; contentType := ct; addedAt := w_clock w |} in
  ∃ f tr,
    run (MyListService.addToMyList cs u request) w =
    if negb (user_exists w u) then
      (inl (UserNotFoundError u), w, [Ev (UserCountDocuments u)])
    else if negb (content_exists w cid ct) then
      (inl (ContentNotFoundError cid ct), w, [Ev (UserCountDocuments u); content_lookup])
    else if in_list w u cid then
      (inl (DuplicateItemError cid), w,
       [Ev (UserCountDocuments u); content_lookup; Ev (MyListFindOneWithItem u cid)])
    else
      (inr tt,
       set_cache f (set_mylists (insert u (pushed w u item (w_clock w))) w), tr).
Proof.
  intros cid ct lookup item.
  unfold MyListService.addToMyList.
  rewrite run_try_catch, run_bind, run_UserRepository_exists.
  destruct (user_exists w u); cbn [negb run_then run_catch];
    [|by exists (fun m => m), []].
  rewrite run_bind, run_contentExists. fold cid ct lookup.
  destruct (content_exists w cid ct); cbn [negb run_then run_catch];
    [|by exists (fun m => m), []].
  rewrite run_bind, run_itemExists.
  destruct (in_list w u cid) eqn:Hin; cbn [negb run_then run_catch];
    [by exists (fun m => m), []|].
  rewrite run_bind, run_await. cbn [handle run_then]. fold item.
  rewrite run_bind, run_addItem_fresh by done. cbn [run_then].
  rewrite run_bind.
  destruct (run_invalidateUserList cs u
              (set_mylists (insert u (pushed w u item (w_clock w))) w))
    as (f & tr & ->).
  cbn. exists f. eexists. reflexivity.
Qed.

Lemma in_list_pushed (w : World) (u : string) (item : MyListItem) (now : Z)
    (f : gmap string CacheEntry -> gmap string CacheEntry) :
  in_list (set_cache f (set_mylists (insert u (pushed w u item now)) w)) u (contentId item)
  = true.
Proof.
  unfold in_list, user_items. cbn. rewrite lookup_insert_eq.
  apply bool_decide_eq_true_2. unfold pushed.
  destruct (w_mylists w !! u); cbn; rewrite ?fmap_app; set_solver.
Qed.


Lemma run_removeFromMyList (cs : CacheService) (w : World) (u cid : string) :
  ∃ f tr,
    run (MyListService.removeFromMyList cs u cid) w =
    match w_mylists w !! u with
    | Some d =>
        (inr tt, set_cache f (set_mylists (insert u (pulled d cid (w_clock w))) w), tr)
    | None =>
        (inl (ItemNotFoundError cid), w, [Ev DateNow; Ev (MyListPull u cid (w_clock w))])
    end.
Proof.
  unfold MyListService.removeFromMyList.
  rewrite run_try_catch, run_bind, run_removeItem.
  destruct (w_mylists w !! u) as [d|]; cbn [negb run_then run_catch].
  - rewrite run_bind.
    destruct (run_invalidateUserList cs u
                (set_mylists (insert u (pulled d cid (w_clock w))) w))
      as (f & tr & ->).
    cbn. exists f. eexists. reflexivity.
  - by exists (fun m => m), [].
Qed.

(** ** The cache service never throws and only touches the cache *)

Lemma set_cache_id (w : World) : set_cache (fun m => m) w = w.
Proof. by destruct w. Qed.

Lemma run_getCachedList (cs : CacheService) (u : string) (p l : Z)
    (t : option ContentType) (w : World) :
  ∃ f tr, run (CacheServiceImpl.getCachedList cs u p l t) w =
          (inr (cached_value cs w (CacheServiceImpl.getListCacheKey u p l t)),
           set_cache f w, tr).
Proof.
  unfold CacheServiceImpl.getCachedList, cached_value.
  destruct (cache cs) as [b|]; cbn.
  2:{ exists (fun m => m), []. by rewrite set_cache_id. }
  destruct (w_cache_rejects w CallGet); cbn.
  { exists (fun m => m). eexists. by rewrite set_cache_id. }
  destruct (w_cache w !! _) as [e|]; cbn.
  2:{ exists (fun m => m). eexists. by rewrite set_cache_id. }
  destruct (expired (w_clock w) e); cbn.
  - eexists. eexists. reflexivity.
  - exists (fun m => m). eexists. by rewrite set_cache_id.
Qed.

Lemma run_setCachedList (cs : CacheService) (u : string) (p l : Z)
    (d : PaginatedMyListResponse) (t : option ContentType) (w : World) :
  ∃ f tr, run (CacheServiceImpl.setCachedList cs u p l d t) w = (inr tt, set_cache f w, tr).
Proof.
  unfold CacheServiceImpl.setCachedList.
  destruct (cache cs) as [b|]; cbn.
  2:{ exists (fun m => m), []. by rewrite set_cache_id. }
  destruct (w_cache_rejects w CallSet); cbn.
  - exists (fun m => m). eexists. by rewrite set_cache_id.
  - eexists. eexists. reflexivity.
Qed.

Lemma run_getItemsPaginated (u : string) (p l : Z) (w : World) :
  run (MyListRepository.getItemsPaginated u p l) w =
  (inr (MyListRepository.paginate (w_mylists w !! u) p l), w, [Ev (MyListFindOne u)]).
Proof. done. Qed.

Lemma filter_elem_of_nil {A : Type} (f : A -> string) (l : list A) :
  filter (fun x => f x ∈ @nil string) l = [].
Proof.
  induction l as [|x l IH]; [done|].
  rewrite filter_cons. destruct (decide (f x ∈ [])) as [Hin|_]; [|done].
  by apply elem_of_nil in Hin.
Qed.

Lemma run_findContentsByIds (ids : list (string * ContentType)) (w : World) :
  ∃ tr, run (ContentRepository.findContentsByIds ids) w = (inr (contents_found w ids), w, tr).
Proof.
  unfold ContentRepository.findContentsByIds, contents_found.
  rewrite run_try_catch, run_bind.
  set (movieIds := (filter (fun item => item.2 = Movie) ids).*1).
  set (tvShowIds := (filter (fun item => item.2 = TVShow) ids).*1).
  destruct movieIds as [|m ms]; destruct tvShowIds as [|t ts]; cbn;
    rewrite ?filter_elem_of_nil; eexists; reflexivity.
Qed.

Lemma run_mapM_pure {A B : Type} (f : A -> prog B) (g : A -> B) (l : list A) :
  (∀ x w, ∃ tr, run (f x) w = (inr (g x), w, tr)) ->
  ∀ w, ∃ tr, run (mapM f l) w = (inr (g <$> l), w, tr).
Proof.
  intros Hf. induction l as [|x l IH]; intros w; cbn [mapM].
  - by exists [].
  - rewrite run_bind. destruct (Hf x w) as [tr ->]. cbn [run_then].
    rewrite run_bind. destruct (IH w) as [tr' ->]. cbn. eexists. reflexivity.
Qed.

Lemma omap_id_fmap {A B : Type} (g : A -> option B) (l : list A) :
  omap id (g <$> l) = omap g l.
Proof. induction l as [|x l IH]; cbn; [done|]. destruct (g x); cbn; by rewrite IH. Qed.

(** ** GetList, one call *)

Lemma run_getMyList (cs : CacheService) (u : string) (q : ListMyItemsQuery) (w : World) :
  ∃ f tr, run (MyListService.getMyList cs u q) w =
          (inr (match cached_value cs w (query_key u q) with
                | Some c => c
                | None => fresh_response w u q
                end), set_cache f w, tr).
Proof.
  unfold MyListService.getMyList, query_key, fresh_response.
  set (pageNo := MyListService.or_default (query_page q) 1).
  set (pageLimit := MyListService.or_default (query_limit q) 10).
  rewrite run_try_catch, run_bind.
  destruct (run_getCachedList cs u pageNo pageLimit (query_contentType q) w)
    as (f & tr & ->).
  cbn [run_then].
  destruct (cached_value cs w _) as [c|].
  { cbn. eexists. eexists. reflexivity. }
  rewrite run_bind, run_getItemsPaginated. cbn [run_then w_mylists set_cache].
  set (result := MyListRepository.paginate (w_mylists w !! u) pageNo pageLimit).
  destruct (Z.of_nat (length (result_items result)) =? 0).
  { rewrite run_bind.
    destruct (run_setCachedList cs u pageNo pageLimit
                {| data := []; pagination := result_pagination result |}
                (query_contentType q) (set_cache f w)) as (f' & tr' & ->).
    cbn. exists (fun m => f' (f m)). eexists. reflexivity. }
  set (itemsToProcess := match query_contentType q with
                         | Some t => filter (fun item => contentType item = t) (result_items result)
                         | None => result_items result
                         end).
  rewrite run_bind.
  destruct (run_findContentsByIds
              ((fun item => (contentId item, contentType item)) <$> itemsToProcess)
              (set_cache f w)) as (tr1 & ->).
  cbn [run_then].
  change (contents_found (set_cache f w)) with (contents_found w).
  set (contentDetails := contents_found w _).
  rewrite run_bind.
  set (g := fun item : MyListItem =>
              MyListService.withDetails item <$>
              List.find (fun c => bool_decide (content_id c = contentId item)) contentDetails).
  edestruct (run_mapM_pure
              (fun item =>
                 match List.find (fun c => bool_decide (content_id c = contentId item))
                                 contentDetails with
                 | Some content => Ret (Some (MyListService.withDetails item content))
                 | None => log LWarn "Content not found for MyList item";; Ret None
                 end) g itemsToProcess) as (tr2 & ->).
  { intros x w0. unfold g. destruct (List.find _ contentDetails); cbn; eexists; reflexivity. }
  cbn [run_then]. rewrite omap_id_fmap. fold g.
  rewrite run_bind.
  match goal with
  | |- context [run (CacheServiceImpl.setCachedList cs u pageNo pageLimit ?d ?t) ?w0] =>
      destruct (run_setCachedList cs u pageNo pageLimit d t w0) as (f' & tr' & ->)
  end.
  cbn. exists (fun m => f' (f m)). eexists. reflexivity.
Qed.

(** ** Sorting and slicing *)

Section Sorting.
Context {A : Type} (key : A -> Z).

Notation cmp := (descending_by key).

Lemma sort_insert_perm (x : A) (l : list A) : sort_insert cmp x l ≡ₚ x :: l.
Proof.
  induction l as [|y l IH]; cbn; [done|].
  destruct (cmp x y <=? 0); [done|].
  rewrite IH. apply Permutation_swap.
Qed.

Lemma js_sort_perm (l : list A) : js_sort cmp l ≡ₚ l.
Proof.
  induction l as [|x l IH]; cbn; [done|].
  fold (js_sort cmp l). by rewrite sort_insert_perm, IH.
Qed.

Lemma sort_insert_sorted (x : A) (l : list A) :
  StronglySorted (fun a b => key b ≤ key a) l ->
  StronglySorted (fun a b => key b ≤ key a) (sort_insert cmp x l).
Proof.
  induction 1 as [|y l Hs IH Hall]; cbn.
  - repeat constructor.
  - destruct (cmp x y <=? 0) eqn:Hc.
    + apply Z.leb_le in Hc. unfold descending_by in Hc.
      constructor; [by constructor|].
      constructor; [lia|].
      eapply Forall_impl; [exact Hall|]. cbn. intros z Hz. lia.
    + apply Z.leb_gt in Hc. unfold descending_by in Hc.
      constructor; [exact IH|].
      rewrite sort_insert_perm. constructor; [lia|exact Hall].
Qed.

Lemma js_sort_sorted (l : list A) :
  StronglySorted (fun a b => key b ≤ key a) (js_sort cmp l).
Proof.
  induction l as [|x l IH]; cbn; [constructor|].
  by apply sort_insert_sorted.
Qed.

(** Stability: among entries of equal key the original order survives. *)
Lemma sort_insert_stable (t : Z) (x : A) (l : list A) :
  filter (fun a => key a = t) (sort_insert cmp x l) =
  filter (fun a => key a = t) (x :: l).
Proof.
  induction l as [|y l IH]; cbn; [done|].
  destruct (cmp x y <=? 0) eqn:Hc; [done|].
  apply Z.leb_gt in Hc. unfold descending_by in Hc.
  rewrite (filter_cons _ y), IH, !filter_cons.
  destruct (decide (key y = t)), (decide (key x = t)); try done. lia.
Qed.

Lemma js_sort_stable (t : Z) (l : list A) :
  filter (fun a => key a = t) (js_sort cmp l) = filter (fun a => key a = t) l.
Proof.
  induction l as [|x l IH]; cbn; [done|].
  fold (js_sort cmp l). by rewrite sort_insert_stable, !filter_cons, IH.
Qed.
End Sorting.

Lemma js_slice_lookup {A : Type} (l : list A) (skip lim : Z) (i : nat) :
  0 ≤ skip -> 0 ≤ lim ->
  js_slice l skip (skip + lim) !! i =
  if decide (Z.of_nat i < lim) then l !! (Z.to_nat skip + i)%nat else None.
Proof.
  intros Hs Hl. unfold js_slice.
  destruct (skip <? 0) eqn:E1; [apply Z.ltb_lt in E1; lia|].
  destruct (skip + lim <? 0) eqn:E2; [apply Z.ltb_lt in E2; lia|].
  rewrite lookup_take, lookup_drop.
  destruct (decide (Z.of_nat i < lim)) as [Hi|Hi]; case_decide as Hd.
  - f_equal. lia.
  - symmetry. apply lookup_ge_None. lia.
  - exfalso. lia.
  - done.
Qed.

Lemma ltb_decide (a b : Z) : (a <? b) = bool_decide (a < b).
Proof.
  destruct (Z.ltb_spec a b); symmetry.
  - by apply bool_decide_eq_true_2.
  - apply bool_decide_eq_false_2. lia.
Qed.

Lemma Math_ceil_div_spec (a b : Z) :
  0 < b -> (Math_ceil_div a b - 1) * b < a ≤ Math_ceil_div a b * b.
Proof.
  intros Hb. unfold Math_ceil_div.
  pose proof (Z.div_mod (- a) b ltac:(lia)) as Hdm.
  pose proof (Z.mod_pos_bound (- a) b Hb) as Hm.
  nia.
Qed.

(** ** The store's pagination *)




Example getItemsPaginated_demo :
  result_of (run (MyListRepository.getItemsPaginated "user-1" 1 2) demo_world)
  = inr {| result_items := [demo_item "tvshow-1" TVShow 200; demo_item "movie-2" Movie 200];
           result_pagination :=
             {| page := 1; limit := 2; total := 3; totalPages := 2;
                hasNextPage := true; hasPreviousPage := false |} |}.
Proof. vm_compute. reflexivity. Qed.

(** ** RemoveFromList *)

(** C4, evaluated on the code.  [user-1] has [movie-1] in the list and never
    had [movie-3].  Removing [movie-1] succeeds and takes the entry out;
    removing it a second time succeeds again, and so does removing
    [movie-3]: [removeItem] reports [true] whenever the user has an
    aggregate, so [ItemNotFoundError] is not raised. *)
Theorem removeFromMyList_absent_entry_succeeds :
  let first := run (MyListService.removeFromMyList cacheActive "user-1" "movie-1") demo_world in
  let second :=
    run (MyListService.removeFromMyList cacheActive "user-1" "movie-1") (world_of first) in
  let never := run (MyListService.removeFromMyList cacheActive "user-1" "movie-3") demo_world in
  in_list demo_world "user-1" "movie-1" = true ∧
  result_of first = inr tt ∧
  in_list (world_of first) "user-1" "movie-1" = false ∧
  result_of second = inr tt ∧
  in_list demo_world "user-1" "movie-3" = false ∧
  result_of never = inr tt.
Proof. vm_compute. by repeat split. Qed.

(** On the code, removal fails only for a user without an aggregate. *)
Lemma removeFromMyList_result (cs : CacheService) (w : World) (u cid : string) :
  result_of (run (MyListService.removeFromMyList cs u cid) w) =
  match w_mylists w !! u with
  | Some _ => inr tt
  | None => inl (ItemNotFoundError cid)
  end.
Proof.
  destruct (run_removeFromMyList cs w u cid) as (f & tr & ->).
  by destruct (w_mylists w !! u).
Qed.

(** ** The aggregate's [updatedAt] *)



(** ** Resolving content *)

Lemma foldl_insert_lookup {A V : Type} (k : A -> string) (v : A -> V)
    (l : list A) (m0 : gmap string V) (x : string) :
  foldl (fun m a => <[k a := v a]> m) m0 l !! x =
  match last (filter (fun a => k a = x) l) with
  | Some a => Some (v a)
  | None => m0 !! x
  end.
Proof.
  induction l as [|a l IH] using rev_ind; [done|].
  rewrite foldl_snoc, filter_app, filter_cons, filter_nil.
  destruct (decide (k a = x)) as [<-|Hne].
  - by rewrite last_snoc, lookup_insert_eq.
  - by rewrite app_nil_r, lookup_insert_ne.
Qed.

Lemma contentMap_of_lookup (ms : list MovieDoc) (ts : list TVShowDoc) (x : string) :
  ContentRepository.contentMap_of ms ts !! x =
  match last (filter (fun t => tvshow_id t = x) ts) with
  | Some t => Some (CTVShow t)
  | None => CMovie <$> last (filter (fun m => movie_id m = x) ms)
  end.
Proof.
  unfold ContentRepository.contentMap_of.
  rewrite (foldl_insert_lookup tvshow_id CTVShow).
  destruct (last (filter _ ts)); [done|].
  rewrite (foldl_insert_lookup movie_id CMovie).
  by destruct (last (filter _ ms)).
Qed.

Lemma last_filter_prop {A : Type} (P : A -> Prop) `{!∀ x, Decision (P x)}
    (l : list A) (a : A) :
  last (filter P l) = Some a -> P a.
Proof.
  intros Hl. apply last_Some_elem_of, list_elem_of_filter in Hl. tauto.
Qed.

Lemma contentMap_of_content_id (ms : list MovieDoc) (ts : list TVShowDoc)
    (x : string) (c : Content) :
  ContentRepository.contentMap_of ms ts !! x = Some c -> content_id c = x.
Proof.
  rewrite contentMap_of_lookup.
  destruct (last (filter _ ts)) as [t|] eqn:Ht.
  - intros [= <-]. by apply last_filter_prop in Ht.
  - destruct (last (filter _ ms)) as [m|] eqn:Hm; [|done].
    intros [= <-]. by apply last_filter_prop in Hm.
Qed.

Lemma filter_key_of_members {A : Type} (k : A -> string) (S : list string)
    (x : string) (l : list A) :
  filter (fun a => k a = x) (filter (fun a => k a ∈ S) l) =
  if decide (x ∈ S) then filter (fun a => k a = x) l else [].
Proof.
  induction l as [|a l IH]; [by case_decide|].
  rewrite (filter_cons (fun a => k a ∈ S)), (filter_cons (fun a => k a = x) a l).
  destruct (decide (k a ∈ S)) as [Hin|Hout].
  - rewrite filter_cons, IH.
    destruct (decide (k a = x)) as [Heq|Hne]; [|done].
    subst x. by destruct (decide (k a ∈ S)).
  - rewrite IH. destruct (decide (k a = x)) as [Heq|Hne]; [|done].
    subst x. by destruct (decide (k a ∈ S)).
Qed.

(** Looking an id up in the list [findContentsByIds] returned is looking it up
    in the map the list was read from. *)
Lemma find_in_found (cm : gmap string Content) (ids : list (string * ContentType))
    (x : string) :
  (∀ y c, cm !! y = Some c -> content_id c = y) ->
  List.find (fun c => bool_decide (content_id c = x)) (omap (fun item => cm !! item.1) ids) =
  if decide (x ∈ ids.*1) then cm !! x else None.
Proof.
  intros HK. induction ids as [|item ids IH]; [done|].
  cbn [omap list_omap fmap list_fmap].
  destruct (decide (item.1 = x)) as [Heq|Hne].
  - subst x. rewrite (decide_True (P := item.1 ∈ item.1 :: ids.*1)) by left.
    destruct (cm !! item.1) as [c|] eqn:Hc.
    + cbn [List.find]. by rewrite bool_decide_eq_true_2 by eauto.
    + rewrite IH. by destruct (decide _).
  - destruct (cm !! item.1) as [c|] eqn:Hc.
    + cbn [List.find]. rewrite bool_decide_eq_false_2
        by (rewrite (HK _ _ Hc); done).
      rewrite IH. repeat case_decide; set_solver.
    + rewrite IH. repeat case_decide; set_solver.
Qed.

Lemma last_filter_is_Some {A : Type} (k : A -> string) (x : string) (l : list A) :
  is_Some (last (filter (fun a => k a = x) l)) ↔ x ∈ k <$> l.
Proof.
  rewrite list_elem_of_fmap. split.
  - intros [a Ha]. exists a. apply last_Some_elem_of, list_elem_of_filter in Ha. naive_solver.
  - intros (a & -> & Ha).
    destruct (last (filter (fun a0 => k a0 = k a) l)) as [b|] eqn:Hl; [by eexists|].
    apply last_None in Hl.
    by apply (filter_nil_not_elem_of _ _ a) in Hl.
Qed.

Lemma resolve_is_Some (w : World) (it : MyListItem) :
  is_Some (resolve w it) ↔ content_exists w (contentId it) (contentType it) = true.
Proof.
  unfold resolve, content_exists.
  destruct (contentType it); rewrite fmap_is_Some, last_filter_is_Some;
    by rewrite bool_decide_eq_true.
Qed.

Lemma find_resolves (w : World) (l : list MyListItem) (it : MyListItem) :
  type_consistent l -> it ∈ l ->
  List.find (fun c => bool_decide (content_id c = contentId it))
            (contents_found w ((fun item => (contentId item, contentType item)) <$> l))
  = resolve w it.
Proof.
  intros Hcons Hin. unfold contents_found.
  set (ids := (fun item => (contentId item, contentType item)) <$> l).
  rewrite find_in_found by apply contentMap_of_content_id.
  assert (Hmem : ∀ t, contentId it ∈ (filter (fun item : string * ContentType => item.2 = t) ids).*1
                      ↔ contentType it = t).
  { intros t. rewrite list_elem_of_fmap. split.
    - intros ([c t'] & Hc & Hf). apply list_elem_of_filter in Hf as [Ht Hf].
      cbn in *. subst. apply list_elem_of_fmap in Hf as (b & [= ? ?] & Hb).
      subst. symmetry. by apply Hcons.
    - intros <-. exists (contentId it, contentType it). split; [done|].
      apply list_elem_of_filter. split; [done|].
      apply list_elem_of_fmap. by exists it. }
  rewrite decide_True.
  2:{ subst ids. rewrite <- list_fmap_compose. apply list_elem_of_fmap. by exists it. }
  rewrite contentMap_of_lookup, !filter_key_of_members.
  unfold resolve.
  destruct (contentType it) eqn:Ht.
  - rewrite (decide_False (P := _ ∈ (filter (fun item => item.2 = TVShow) ids).*1))
      by (rewrite Hmem; congruence).
    rewrite decide_True by (by apply Hmem). done.
  - rewrite (decide_True (P := _ ∈ (filter (fun item => item.2 = TVShow) ids).*1))
      by (by apply Hmem).
    destruct (last (filter _ (w_tvshows w))); [done|].
    rewrite decide_False by (rewrite Hmem; congruence). done.
Qed.

Lemma omap_ext_in {A B : Type} (f g : A -> option B) (l : list A) :
  (∀ x, x ∈ l -> f x = g x) -> omap f l = omap g l.
Proof.
  induction l as [|x l IH]; intros H; [done|].
  cbn. rewrite (H x) by left. rewrite IH; [done|].
  intros y Hy. apply H. by right.
Qed.

Lemma length_omap_filter {A B : Type} (f : A -> option B) (P : A -> Prop)
    `{!∀ x, Decision (P x)} (l : list A) :
  (∀ x, is_Some (f x) ↔ P x) ->
  length (omap f l) = length (filter P l).
Proof.
  intros Hiff. induction l as [|x l IH]; [done|].
  rewrite filter_cons. cbn [omap list_omap]. destruct (f x) as [b|] eqn:Hf.
  - rewrite decide_True by (apply Hiff; by eexists). cbn [length]. by rewrite IH.
  - rewrite decide_False; [done|]. intros HP. apply Hiff in HP as [b Hb]. congruence.
Qed.

(** ** The page GetList assembles *)

Lemma paginate_items (w : World) (u : string) (p l : Z) :
  result_items (MyListRepository.paginate (w_mylists w !! u) p l) = fetched_page w u p l.
Proof.
  unfold MyListRepository.paginate, fetched_page, user_items.
  destruct (w_mylists w !! u); cbn; [done|].
  unfold js_slice. cbn. by rewrite drop_nil, take_nil.
Qed.

Lemma paginate_total (w : World) (u : string) (p l : Z) :
  total (result_pagination (MyListRepository.paginate (w_mylists w !! u) p l))
  = Z.of_nat (length (user_items w u)).
Proof.
  unfold MyListRepository.paginate, user_items. by destruct (w_mylists w !! u).
Qed.

Lemma fetched_page_submseteq (w : World) (u : string) (p l : Z) :
  fetched_page w u p l ⊆+ user_items w u.
Proof.
  unfold fetched_page, js_slice.
  etrans; [apply sublist_submseteq, sublist_take|].
  etrans; [apply sublist_submseteq, sublist_drop|].
  apply Permutation_submseteq, (js_sort_perm addedAt).
Qed.

Lemma submseteq_NoDup {A : Type} (l k : list A) : l ⊆+ k -> NoDup k -> NoDup l.
Proof.
  intros Hsub Hnd. apply submseteq_Permutation in Hsub as [k' Hk].
  rewrite Hk in Hnd. by apply NoDup_app in Hnd as [? _].
Qed.

Lemma NoDup_fmap_eq {A B : Type} (f : A -> B) (l : list A) (a b : A) :
  NoDup (f <$> l) -> a ∈ l -> b ∈ l -> f a = f b -> a = b.
Proof.
  induction l as [|x l IH]; intros Hnd Ha Hb Hf; [by apply elem_of_nil in Ha|].
  rewrite fmap_cons in Hnd. apply NoDup_cons in Hnd as [Hx Hnd].
  apply elem_of_cons in Ha as [->|Ha]; apply elem_of_cons in Hb as [->|Hb].
  - done.
  - exfalso. apply Hx. rewrite Hf. by apply list_elem_of_fmap_2.
  - exfalso. apply Hx. rewrite <- Hf. by apply list_elem_of_fmap_2.
  - by apply IH.
Qed.

Lemma NoDup_type_consistent (l : list MyListItem) :
  NoDup (contentId <$> l) -> type_consistent l.
Proof.
  intros Hnd a b Ha Hb Hid. by rewrite (NoDup_fmap_eq contentId l a b).
Qed.

Lemma filter_type_consistent (t : ContentType) (l : list MyListItem) :
  type_consistent (filter (fun it => contentType it = t) l).
Proof.
  intros a b Ha Hb _.
  apply list_elem_of_filter in Ha as [-> _]. by apply list_elem_of_filter in Hb as [-> _].
Qed.

(** [data] in the code's own terms: the entries for which the list returned
    by the batched lookup holds a document with the entry's id. *)
Lemma fresh_response_data_found (w : World) (u : string) (q : ListMyItemsQuery) :
  let fetched := fetched_page w u (MyListService.or_default (query_page q) 1)
                              (MyListService.or_default (query_limit q) 10) in
  let kept := match query_contentType q with
              | Some t => filter (fun it => contentType it = t) fetched
              | None => fetched
              end in
  let contentDetails :=
    contents_found w ((fun it => (contentId it, contentType it)) <$> kept) in
  data (fresh_response w u q) =
  omap (fun it =>
          MyListService.withDetails it <$>
            List.find (fun c => bool_decide (content_id c = contentId it)) contentDetails)
       kept.
Proof.
  intros fetched kept contentDetails. unfold fresh_response.
  rewrite paginate_items. fold fetched.
  destruct (Z.of_nat (length fetched) =? 0) eqn:Hlen; [|done].
  apply Z.eqb_eq in Hlen. destruct fetched eqn:Hf; [|cbn in Hlen; lia].
  subst kept. cbn. by destruct (query_contentType q).
Qed.

(** The same in the catalogue's terms. *)
Lemma fresh_response_data (w : World) (u : string) (q : ListMyItemsQuery) :
  let fetched := fetched_page w u (MyListService.or_default (query_page q) 1)
                              (MyListService.or_default (query_limit q) 10) in
  let kept := match query_contentType q with
              | Some t => filter (fun it => contentType it = t) fetched
              | None => fetched
              end in
  type_consistent kept ->
  data (fresh_response w u q) =
  omap (fun it => MyListService.withDetails it <$> resolve w it) kept.
Proof.
  intros fetched kept Hcons.
  pose proof (fresh_response_data_found w u q) as Hfound. cbn zeta in Hfound.
  fold fetched kept in Hfound. rewrite Hfound.
  apply omap_ext_in. intros it Hit. by rewrite find_resolves.
Qed.

(** ** Missing content *)



(** ** Filtered pages *)

Lemma fresh_response_filtered (w : World) (u : string) (q : ListMyItemsQuery)
    (t : ContentType) :
  query_contentType q = Some t ->
  let pageNo := MyListService.or_default (query_page q) 1 in
  let pageLimit := MyListService.or_default (query_limit q) 10 in
  let fetched := fetched_page w u pageNo pageLimit in
  let stored := result_pagination
                  (MyListRepository.paginate (w_mylists w !! u) pageNo pageLimit) in
  (fetched = [] ∧ fresh_response w u q = {| data := []; pagination := stored |}) ∨
  (fetched ≠ [] ∧
   ∃ items,
     length items =
       length (filter (fun it => content_exists w (contentId it) (contentType it) = true)
                      (filter (fun it => contentType it = t) fetched)) ∧
     fresh_response w u q =
     {| data := items;
        pagination :=
          {| page := page stored; limit := limit stored;
             total := Z.of_nat (length items);
             totalPages := Math_ceil_div (Z.of_nat (length items)) pageLimit;
             hasNextPage := pageNo <? Math_ceil_div (Z.of_nat (length items)) pageLimit;
             hasPreviousPage := 1 <? pageNo |} |}).
Proof.
  intros Ht pageNo pageLimit fetched stored.
  pose proof (fresh_response_data w u q) as Hdata. cbn zeta in Hdata.
  rewrite Ht in Hdata. fold pageNo pageLimit fetched in Hdata.
  specialize (Hdata (filter_type_consistent t fetched)).
  revert Hdata. unfold fresh_response. rewrite paginate_items, Ht.
  fold pageNo pageLimit fetched stored.
  destruct (Z.of_nat (length fetched) =? 0) eqn:Hlen.
  - intros _. left. apply Z.eqb_eq in Hlen. split; [|done].
    destruct fetched; [done|cbn in Hlen; lia].
  - cbn [data]. intros Hdata. right.
    split; [intros Hnil; by rewrite Hnil in Hlen|].
    eexists. split; [|reflexivity]. rewrite Hdata.
    apply length_omap_filter. intros it. rewrite fmap_is_Some. apply resolve_is_Some.
Qed.




(** ** Cache failures *)

(** C8.  Whatever the cache backend does, rejected calls included:
    [addToMyList] and [removeFromMyList] end with the result, and leave the
    store in the state, they have without any cache; [setCachedList] and
    [invalidateUserList] return normally; a rejected read makes
    [getCachedList] answer [null], and [getMyList] then returns the freshly
    assembled response, as it does without any cache. *)
Theorem cache_failures_are_absorbed (w : World) (u : string) :
  (∀ request,
     let with_cache := run (MyListService.addToMyList cacheActive u request) w in
     let without := run (MyListService.addToMyList cacheDisabled u request) w in
     result_of with_cache = result_of without ∧
     w_mylists (world_of with_cache) = w_mylists (world_of without)) ∧
  (∀ cid,
     let with_cache := run (MyListService.removeFromMyList cacheActive u cid) w in
     let without := run (MyListService.removeFromMyList cacheDisabled u cid) w in
     result_of with_cache = result_of without ∧
     w_mylists (world_of with_cache) = w_mylists (world_of without)) ∧
  (∀ cs p l d t,
     result_of (run (CacheServiceImpl.setCachedList cs u p l d t) w) = inr tt ∧
     result_of (run (CacheServiceImpl.invalidateUserList cs u) w) = inr tt) ∧
  (∀ rej p l t,
     result_of (run (CacheServiceImpl.getCachedList cacheActive u p l t)
                    (with_rejects (reject_reads rej) w)) = inr None) ∧
  (∀ rej q,
     let w' := with_rejects (reject_reads rej) w in
     result_of (run (MyListService.getMyList cacheActive u q) w') = inr (fresh_response w u q) ∧
     result_of (run (MyListService.getMyList cacheDisabled u q) w') = inr (fresh_response w u q) ∧
     w_mylists (world_of (run (MyListService.getMyList cacheActive u q) w')) = w_mylists w).
Proof.
  split; [|split; [|split; [|split]]].
  - intros request with_cache without. subst with_cache without.
    destruct (run_addToMyList cacheActive w u request) as (f1 & tr1 & ->).
    destruct (run_addToMyList cacheDisabled w u request) as (f2 & tr2 & ->).
    destruct (negb (user_exists w u)); [done|].
    destruct (negb (content_exists w _ _)); [done|].
    by destruct (in_list w u _).
  - intros cid with_cache without. subst with_cache without.
    destruct (run_removeFromMyList cacheActive w u cid) as (f1 & tr1 & ->).
    destruct (run_removeFromMyList cacheDisabled w u cid) as (f2 & tr2 & ->).
    by destruct (w_mylists w !! u).
  - intros cs p l d t. split.
    + by destruct (run_setCachedList cs u p l d t w) as (f & tr & ->).
    + by destruct (run_invalidateUserList cs u w) as (f & tr & ->).
  - intros rej p l t.
    by destruct (run_getCachedList cacheActive u p l t (with_rejects (reject_reads rej) w))
      as (f & tr & ->).
  - intros rej q w'. subst w'.
    destruct (run_getMyList cacheActive u q (with_rejects (reject_reads rej) w))
      as (f & tr & ->).
    by destruct (run_getMyList cacheDisabled u q (with_rejects (reject_reads rej) w))
      as (f' & tr' & ->).
Qed.

(** ** Isolation between users *)

(** The store side of isolation: a mutation for [u] leaves every other
    user's aggregate as it was. *)
Lemma mutation_keeps_other_aggregates (cs : CacheService) (w : World) (u u' : string) :
  u ≠ u' ->
  (∀ request,
     w_mylists (world_of (run (MyListService.addToMyList cs u request) w)) !! u'
     = w_mylists w !! u') ∧
  (∀ cid,
     w_mylists (world_of (run (MyListService.removeFromMyList cs u cid) w)) !! u'
     = w_mylists w !! u').
Proof.
  intros Hne. split.
  - intros request. destruct (run_addToMyList cs w u request) as (f & tr & ->).
    destruct (negb (user_exists w u)); [done|].
    destruct (negb (content_exists w _ _)); [done|].
    destruct (in_list w u _); [done|].
    unfold world_of. cbn. by rewrite lookup_insert_ne.
  - intros cid. destruct (run_removeFromMyList cs w u cid) as (f & tr & ->).
    destruct (w_mylists w !! u) as [d|] eqn:Hd; [|done].
    unfold world_of. cbn. by rewrite lookup_insert_ne.
Qed.


(** ** Cache transparency *)


(** With an id free of syntax characters the same three calls leave no stale
    page behind. *)
Example invalidation_reaches_plain_ids :
  let u := "user-2" in
  let q := demo_query 1 10 None in
  let w1 := world_of (run (MyListService.getMyList cacheActive u q) demo_world) in
  let w2 := world_of (run (MyListService.addToMyList cacheActive u (demo_request "movie-1" Movie)) w1) in
  w_cache w1 !! query_key u q ≠ None ∧
  w_cache w2 !! query_key u q = None ∧
  result_of (run (MyListService.getMyList cacheActive u q) w2)
  = result_of (run (MyListService.getMyList cacheDisabled u q) w2).
Proof. vm_compute. repeat split; congruence. Qed.

(** ** Concurrent adds *)

Lemma runnable_spec {A : Type} (tasks : list (prog A)) (i : nat) :
  i ∈ runnable tasks ↔ ∃ p, tasks !! i = Some p ∧ is_pending p = true.
Proof.
  unfold runnable. rewrite list_elem_of_In, filter_In, <- list_elem_of_In, elem_of_seq.
  split.
  - intros [_ Hp]. destruct (tasks !! i) as [p|]; [by exists p|done].
  - intros (p & Hp & Hpend). rewrite Hp. split; [|done].
    apply lookup_lt_Some in Hp. lia.
Qed.

Lemma step_task_finished {A : Type} (p : prog A) (w : World) :
  is_pending p = false -> step_task p w = (p, w).
Proof. by destruct p. Qed.

(** Every schedule that runs all tasks to completion ends in a state that
    [all_interleavings] has checked. *)
Lemma all_interleavings_sound {A : Type} (check : list (prog A) -> World -> bool)
    (schedule : list nat) :
  ∀ fuel tasks w,
    all_interleavings check fuel tasks w = true ->
    runnable (sched schedule tasks w).1 = [] ->
    check (sched schedule tasks w).1 (sched schedule tasks w).2 = true.
Proof.
  induction schedule as [|i rest IH]; intros fuel tasks w Hall Hdone.
  - cbn [sched fst snd] in *. destruct fuel as [|n]; [done|].
    cbn [all_interleavings] in Hall. by rewrite Hdone in Hall.
  - cbn [sched] in *. destruct (tasks !! i) as [p|] eqn:Hp; [|by eapply IH].
    destruct (is_pending p) eqn:Hpend.
    + destruct fuel as [|n]; [done|]. cbn [all_interleavings] in Hall.
      assert (Hi : i ∈ runnable tasks) by (apply runnable_spec; eauto).
      destruct (runnable tasks) as [|j js] eqn:Hr; [by apply elem_of_nil in Hi|].
      rewrite forallb_forall in Hall. specialize (Hall i).
      rewrite <- list_elem_of_In in Hall. specialize (Hall Hi).
      cbn [sched] in Hall. rewrite Hp in Hall.
      destruct (step_task p w) as [p' w']. by eapply IH.
    + rewrite step_task_finished in * by done.
      rewrite list_insert_id in * by done. by eapply IH.
Qed.


(** Whatever the interleaving, the two racing calls end with one success,
    one "already exists" failure and a single stored entry: both for a user
    without an aggregate and for one with an aggregate. *)
Lemma racing_adds_have_one_winner (schedule : list nat) :
  (let final := sched schedule (racing_adds "user-2" "movie-1" Movie) demo_world in
   runnable final.1 = [] -> one_winner "user-2" "movie-1" final.1 final.2 = true) ∧
  (let final := sched schedule (racing_adds "user-1" "movie-3" Movie) demo_world in
   runnable final.1 = [] -> one_winner "user-1" "movie-3" final.1 final.2 = true).
Proof.
  split; intros final; subst final;
    apply (all_interleavings_sound _ schedule 30%nat); vm_compute; reflexivity.
Qed.

(** ** What invalidation does reach *)

Lemma append_cons (x : ascii) (a b : string) : String x a +:+ b = String x (a +:+ b).
Proof. done. Qed.

Lemma append_nil (b : string) : EmptyString +:+ b = b.
Proof. done. Qed.

Lemma append_assoc (a b c : string) : (a +:+ b) +:+ c = a +:+ (b +:+ c).
Proof.
  induction a as [|x a IH]; [done|]. by rewrite !append_cons, IH.
Qed.

Lemma plain_id_app (a b : string) : plain_id (a +:+ b) = plain_id a && plain_id b.
Proof.
  induction a as [|x a IH]; [done|].
  rewrite append_cons. cbn [plain_id]. rewrite IH. by destruct (is_syntax_char x).
Qed.

Lemma quant_of_plain (c : ascii) : is_syntax_char c = false -> quant_of c = None.
Proof.
  unfold is_syntax_char, quant_of. intros Hc. apply bool_decide_eq_false in Hc.
  repeat case_decide; try done; subst; exfalso; apply Hc; set_solver.
Qed.

Lemma replace_stars_plain (a rest : string) :
  plain_id a = true -> replace_stars (a +:+ rest) = a +:+ replace_stars rest.
Proof.
  induction a as [|x a IH]; [done|]. intros Hp. cbn [plain_id] in Hp.
  apply andb_true_iff in Hp as [Hx Ha]. apply negb_true_iff in Hx.
  rewrite !append_cons. cbn [replace_stars].
  destruct (decide (x = "*"%char)) as [->|_]; [done|]. by rewrite IH.
Qed.

Lemma compile_plain_prefix (a : string) :
  plain_id a = true ->
  compile (a +:+ ".*") = Some (literal_atoms a ++ [(AAny, QStar)])%list.
Proof.
  induction a as [|x a IH]; [done|]. intros Hp. cbn [plain_id] in Hp.
  apply andb_true_iff in Hp as [Hx Ha]. apply negb_true_iff in Hx.
  rewrite append_cons. cbn [compile literal_atoms]. rewrite Hx.
  destruct a as [|y a].
  - done.
  - pose proof Ha as Ha0. cbn [plain_id] in Ha.
    apply andb_true_iff in Ha as [Hy Ha']. apply negb_true_iff in Hy.
    rewrite append_cons, (quant_of_plain y Hy), <- append_cons.
    by rewrite IH.
Qed.

Lemma atom_of_matches (c : ascii) : atom_matches (atom_of c) c = true.
Proof.
  unfold atom_of. destruct (decide (c = "."%char)) as [->|_]; [done|].
  cbn. by apply bool_decide_eq_true_2.
Qed.

Lemma match_here_literal (a : string) (r : list (atom * quant)) (s : string) :
  match_here (literal_atoms a ++ r)%list (a +:+ s) = match_here r s.
Proof.
  induction a as [|x a IH]; [done|].
  rewrite append_cons. cbn [literal_atoms app match_here].
  by rewrite atom_of_matches, IH.
Qed.

Lemma regexp_test_prefix (a s : string) :
  regexp_test (literal_atoms a ++ [(AAny, QStar)])%list (a +:+ s) = true.
Proof.
  assert (Hm : match_here (literal_atoms a ++ [(AAny, QStar)])%list (a +:+ s) = true).
  { rewrite match_here_literal. by destruct s. }
  destruct (a +:+ s); cbn [regexp_test]; by rewrite Hm.
Qed.

(** For an id free of regular-expression syntax, and a backend that accepts
    the call, invalidation leaves none of the user's own pages behind. *)
Lemma invalidateUserList_reaches_own_keys (w : World) (u : string) (p l : Z)
    (t : option ContentType) :
  plain_id u = true ->
  w_cache_rejects w CallDeletePattern = false ->
  w_cache (world_of (run (CacheServiceImpl.invalidateUserList cacheActive u) w))
    !! CacheServiceImpl.getListCacheKey u p l t = None.
Proof.
  intros Hplain Hacc.
  unfold CacheServiceImpl.invalidateUserList, CacheServiceImpl.getUserCachePattern,
    CacheServiceImpl.getListCacheKey, CacheServiceImpl.CACHE_PREFIX.
  cbn [cache cacheActive]. rewrite run_try_catch, run_bind, run_await.
  cbn [handle]. rewrite Hacc. unfold RegExp.
  set (a := "mylist:" +:+ u +:+ ":").
  assert (Hpa : plain_id a = true).
  { subst a. rewrite (plain_id_app "mylist:"), plain_id_app, Hplain. done. }
  assert (Hpat : replace_stars ("mylist" +:+ ":" +:+ u +:+ ":*") = a +:+ ".*").
  { change ("mylist" +:+ ":" +:+ u +:+ ":*") with ("mylist:" +:+ (u +:+ (":" +:+ "*"))).
    rewrite <- !append_assoc. fold a. by rewrite replace_stars_plain. }
  rewrite Hpat, compile_plain_prefix by done.
  cbn [run_then run_catch world_of fst snd w_cache set_cache run log await].
  destruct (handle (Log LDebug "Invalidated user MyList cache") _) as [r w'] eqn:Hlog.
  cbn in Hlog. injection Hlog as <- <-.
  cbn [run_then run_catch world_of fst snd w_cache set_cache run].
  apply map_lookup_filter_None_2. right. intros e _.
  cbn [fst]. intros Hno.
  set (tail := pretty p +:+ ":" +:+ pretty l).
  assert (Hkey : ∃ s, (match t with
                       | Some t0 => ("mylist" +:+ ":" +:+ u +:+ ":" +:+ tail)
                                    +:+ ":" +:+ ContentType_to_string t0
                       | None => "mylist" +:+ ":" +:+ u +:+ ":" +:+ tail
                       end) = a +:+ s).
  { assert (Hbase : "mylist" +:+ ":" +:+ u +:+ ":" +:+ tail = a +:+ tail).
    { subst a. change ("mylist" +:+ ":" +:+ u +:+ ":" +:+ tail)
        with ("mylist:" +:+ (u +:+ (":" +:+ tail))).
      by rewrite <- !append_assoc. }
    destruct t as [t0|]; rewrite Hbase; [|by eexists].
    rewrite append_assoc. by eexists. }
  destruct Hkey as [s Hs]. fold tail in Hno.
  match type of Hno with
  | regexp_test _ ?k = false =>
      change (regexp_test (literal_atoms a ++ [(AAny, QStar)])%list k = false) in Hno
  end.
  rewrite Hs, regexp_test_prefix in Hno.
  discriminate Hno.
Qed.

(** ** The uniqueness invariant *)

(** No mutation introduces a repeated [contentId]: lists reachable from
    lists with distinct ids have distinct ids. *)
Lemma mutation_keeps_ids_distinct (cs : CacheService) (w : World) (u u' : string) :
  NoDup (contentId <$> user_items w u') ->
  (∀ request,
     NoDup (contentId <$>
            user_items (world_of (run (MyListService.addToMyList cs u request) w)) u')) ∧
  (∀ cid,
     NoDup (contentId <$>
            user_items (world_of (run (MyListService.removeFromMyList cs u cid) w)) u')).
Proof.
  intros Hnd. split.
  - intros request. destruct (run_addToMyList cs w u request) as (f & tr & ->).
    destruct (negb (user_exists w u)); [done|].
    destruct (negb (content_exists w _ _)); [done|].
    destruct (in_list w u _) eqn:Hin; [done|].
    unfold world_of, user_items in *. cbn [fst snd w_mylists set_cache set_mylists].
    destruct (decide (u = u')) as [<-|Hne].
    + rewrite lookup_insert_eq. unfold pushed, in_list, user_items in *.
      apply bool_decide_eq_false in Hin.
      destruct (w_mylists w !! u) as [d|]; cbn [items].
      * rewrite fmap_app. apply NoDup_app. split; [done|]. split.
        -- intros x Hx Hx'. apply list_elem_of_singleton in Hx'. by subst x.
        -- apply NoDup_singleton.
      * apply NoDup_singleton.
    + by rewrite lookup_insert_ne.
  - intros cid. destruct (run_removeFromMyList cs w u cid) as (f & tr & ->).
    destruct (w_mylists w !! u) as [d|] eqn:Hd; [|done].
    unfold world_of, user_items in *. cbn [fst snd w_mylists set_cache set_mylists].
    destruct (decide (u = u')) as [<-|Hne].
    + rewrite lookup_insert_eq. rewrite Hd in Hnd. cbn [pulled items].
      eapply submseteq_NoDup; [|exact Hnd].
      apply fmap_submseteq, sublist_submseteq, sublist_filter.
    + by rewrite lookup_insert_ne.
Qed.

(** * Further properties of the code *)

Local Open Scope list_scope.

(** ** Pages *)

Lemma js_slice_window {A : Type} (l : list A) (skip lim : Z) :
  0 ≤ skip -> 0 ≤ lim ->
  js_slice l skip (skip + lim) = take (Z.to_nat lim) (drop (Z.to_nat skip) l).
Proof.
  intros Hs Hl. apply list_eq. intros i.
  rewrite js_slice_lookup, lookup_take, lookup_drop by done.
  destruct (decide (Z.of_nat i < lim)); case_decide; try done; lia.
Qed.

Lemma page_items_fetched (w : World) (u : string) (p l : Z) :
  page_items w u p l = fetched_page w u p l.
Proof.
  unfold page_items. rewrite run_getItemsPaginated. apply paginate_items.
Qed.

Lemma page_items_window (w : World) (u : string) (p l : Z) :
  1 ≤ p -> 1 ≤ l ->
  page_items w u p l =
  take (Z.to_nat l)
       (drop (Z.to_nat ((p - 1) * l)) (js_sort MyListRepository.newest_first (user_items w u))).
Proof.
  intros Hp Hl. rewrite page_items_fetched. unfold fetched_page.
  apply js_slice_window; nia.
Qed.

Lemma page_count_ceil (w : World) (u : string) (l : Z) :
  1 ≤ l ->
  0 ≤ page_count w u l ∧ Z.of_nat (length (user_items w u)) ≤ page_count w u l * l.
Proof.
  intros Hl. unfold page_count. rewrite run_getItemsPaginated.
  unfold result_of, MyListRepository.paginate, user_items. cbn [fst].
  destruct (w_mylists w !! u) as [d|]; cbn; [|lia].
  pose proof (Math_ceil_div_spec (Z.of_nat (length (items d))) l ltac:(lia)). nia.
Qed.

Lemma concat_windows {A : Type} (s : list A) (L n : nat) :
  concat ((fun i => take L (drop (i * L) s)) <$> seq 0 n) = take (n * L) s.
Proof.
  induction n as [|n IH]; [done|].
  rewrite seq_S, fmap_app, concat_app, IH. cbn [fmap list_fmap concat].
  rewrite app_nil_r, take_take_drop. f_equal. lia.
Qed.

(** X1.  For [limit ≥ 1] the pages [1 .. totalPages] of a user's list,
    put end to end, are the whole list in display order: no entry is lost or
    shown twice.  No page holds more than [limit] entries, and every page
    past [totalPages] is empty. *)
Theorem pages_partition_the_list (w : World) (u : string) (limit : Z) :
  1 ≤ limit ->
  (∀ p, 1 ≤ p -> Z.of_nat (length (page_items w u p limit)) ≤ limit) ∧
  (∀ p, page_count w u limit < p -> page_items w u p limit = []) ∧
  concat ((fun i => page_items w u (Z.of_nat i + 1) limit)
            <$> seq 0 (Z.to_nat (page_count w u limit)))
  = js_sort MyListRepository.newest_first (user_items w u).
Proof.
  intros Hl. pose proof (page_count_ceil w u limit Hl) as [Hc0 Hc].
  set (sorted := js_sort MyListRepository.newest_first (user_items w u)).
  assert (Hlen : length sorted = length (user_items w u)).
  { subst sorted. by rewrite (js_sort_perm addedAt). }
  split; [|split].
  - intros p Hp. rewrite page_items_window by done. rewrite length_take. lia.
  - intros p Hp. rewrite page_items_window by lia. fold sorted.
    rewrite drop_ge; [by rewrite take_nil|]. nia.
  - erewrite (list_fmap_ext _ (fun i => take (Z.to_nat limit) (drop (i * Z.to_nat limit) sorted))).
    + rewrite concat_windows. apply take_ge. nia.
    + intros i x _. rewrite page_items_window by lia. fold sorted. do 2 f_equal. nia.
Qed.

Lemma pages_partition_the_list_witness :
  1 ≤ 2 ∧
  (page_items demo_world "user-1" 1 2 ++ page_items demo_world "user-1" 2 2)%list
  = js_sort MyListRepository.newest_first (user_items demo_world "user-1").
Proof.
  split; [lia|].
  pose proof (pages_partition_the_list demo_world "user-1" 2 ltac:(lia)) as (_ & _ & H).
  vm_compute in H. vm_compute. exact H.
Defined.

(** X2.  [getItemCount] returns the number of entries of the user's
    aggregate, [0] for a user without one, writes nothing, and agrees with
    the [total] that [getItemsPaginated] reports for every page and limit. *)
Theorem getItemCount_agrees_with_total (w : World) (u : string) :
  let r := run (MyListRepositoryReads.getItemCount u) w in
  result_of r = inr (Z.of_nat (length (user_items w u))) ∧
  world_of r = w ∧
  (w_mylists w !! u = None -> result_of r = inr 0) ∧
  ∀ page limit,
    ∃ res, result_of (run (MyListRepository.getItemsPaginated u page limit) w) = inr res ∧
           result_of r = inr (total (result_pagination res)).
Proof.
  intros r. subst r. unfold MyListRepositoryReads.getItemCount.
  rewrite run_try_catch, run_bind, run_await. cbn [handle run_then].
  unfold user_items, result_of, world_of.
  destruct (w_mylists w !! u) as [d|] eqn:Hd; cbn.
  - assert (Hc : (if Z.of_nat (length (items d)) =? 0 then 0 else Z.of_nat (length (items d)))
                 = Z.of_nat (length (items d))).
    { destruct (Z.eqb_spec (Z.of_nat (length (items d))) 0); lia. }
    rewrite Hc. repeat split; [done|].
    intros page limit. rewrite Hd. cbn. eexists. split; reflexivity.
  - repeat split. intros page limit. rewrite Hd. cbn. eexists. split; reflexivity.
Qed.

(** ** The document's own methods *)

Lemma filter_other_ids_absent (cid : string) (l : list MyListItem) :
  cid ∉ contentId <$> l -> filter (fun it => contentId it ≠ cid) l = l.
Proof.
  induction l as [|x l IH]; [done|]. intros Hnot.
  rewrite fmap_cons, not_elem_of_cons in Hnot. destruct Hnot as [Hx Hl].
  rewrite filter_cons, decide_True by done. by rewrite IH.
Qed.

Lemma filter_other_ids_shorter (cid : string) (l : list MyListItem) :
  cid ∈ contentId <$> l ->
  (length (filter (fun it => contentId it ≠ cid) l) < length l)%nat.
Proof.
  induction l as [|x l IH]; intros Hin; [by apply elem_of_nil in Hin|].
  rewrite filter_cons. pose proof (length_filter (fun it => contentId it ≠ cid) l).
  destruct (decide (contentId x ≠ cid)) as [Hne|Heq]; cbn [length].
  - rewrite fmap_cons in Hin. apply elem_of_cons in Hin as [?|Hin]; [congruence|].
    specialize (IH Hin). lia.
  - lia.
Qed.

Lemma filter_other_ids_snoc (cid : string) (l : list MyListItem) (item : MyListItem) :
  cid ∉ contentId <$> l -> contentId item = cid ->
  filter (fun it => contentId it ≠ cid) (l ++ [item]) = l.
Proof.
  intros Hnot Hid. rewrite filter_app, filter_other_ids_absent by done.
  rewrite filter_cons, decide_False by (intros ?; done). apply app_nil_r.
Qed.

Lemma schema_removeItem_parts (this : MyListDoc) (cid : string) (now : Z) :
  (MyListSchema.removeItem this cid now).1 = hasItem cid this ∧
  items (MyListSchema.removeItem this cid now).2
  = filter (fun it => contentId it ≠ cid) (items this).
Proof.
  unfold MyListSchema.removeItem. cbn [items]. rewrite hasItem_in.
  destruct (decide (cid ∈ contentId <$> items this)) as [Hin|Hnot].
  - pose proof (filter_other_ids_shorter cid (items this) Hin) as Hlt.
    rewrite (bool_decide_eq_true_2 _ Hin).
    by destruct (Z.ltb_spec (Z.of_nat (length (filter (fun it => contentId it ≠ cid) (items this))))
                            (Z.of_nat (length (items this)))); [|lia].
  - rewrite (bool_decide_eq_false_2 _ Hnot), filter_other_ids_absent by done.
    by rewrite Z.ltb_irrefl.
Qed.

(** X3.  The document method [removeItem] answers [true]
    exactly when an entry with the id was present; it then drops every such
    entry and stamps [updatedAt].  When the id is absent it answers [false]
    and leaves the document as it was. *)
Theorem schema_removeItem_reports_presence (this : MyListDoc) (cid : string) (now : Z) :
  let out := MyListSchema.removeItem this cid now in
  out.1 = hasItem cid this ∧
  hasItem cid out.2 = false ∧
  items out.2 = filter (fun it => contentId it ≠ cid) (items this) ∧
  (if out.1 then updatedAt out.2 = now else out.2 = this).
Proof.
  intros out. subst out. unfold MyListSchema.removeItem. cbn [items].
  rewrite hasItem_in.
  destruct (decide (cid ∈ contentId <$> items this)) as [Hin|Hnot].
  - pose proof (filter_other_ids_shorter cid (items this) Hin) as Hlt.
    rewrite (bool_decide_eq_true_2 _ Hin).
    destruct (Z.ltb_spec (Z.of_nat (length (filter (fun it => contentId it ≠ cid) (items this))))
                         (Z.of_nat (length (items this)))); [|lia].
    cbn [fst snd items updatedAt]. repeat split. apply (hasItem_pulled this cid now).
  - rewrite (bool_decide_eq_false_2 _ Hnot).
    rewrite filter_other_ids_absent by done.
    rewrite Z.ltb_irrefl. cbn [fst snd items updatedAt]. repeat split.
    + rewrite hasItem_in. by apply bool_decide_eq_false_2.
    + by destruct this.
Qed.

(** X4.  The document method [addItem] throws exactly when the id
    is present.  Otherwise it appends the entry and stamps [updatedAt]; the
    ids stay pairwise distinct if they were; and removing the entry again
    gives back the original entries. *)
Theorem schema_addItem_then_removeItem (this : MyListDoc) (item : MyListItem) (now now' : Z) :
  match MyListSchema.addItem this item now with
  | inl e => hasItem (contentId item) this = true ∧ e = PlainError already_exists_message
  | inr added =>
      hasItem (contentId item) this = false ∧
      items added = items this ++ [item] ∧ updatedAt added = now ∧
      (NoDup (contentId <$> items this) -> NoDup (contentId <$> items added)) ∧
      (MyListSchema.removeItem added (contentId item) now').1 = true ∧
      items (MyListSchema.removeItem added (contentId item) now').2 = items this
  end.
Proof.
  unfold MyListSchema.addItem.
  destruct (hasItem (contentId item) this) eqn:Hhas; cbn [negb]; [done|].
  rewrite hasItem_in in Hhas. apply bool_decide_eq_false in Hhas.
  split; [done|]. split; [done|]. split; [done|]. split.
  - intros Hnd. cbn [items]. rewrite fmap_app. apply NoDup_app. split; [done|]. split.
    + intros x Hx Hx'. apply list_elem_of_singleton in Hx'. by subst x.
    + apply NoDup_singleton.
  - set (added := {| items := items this ++ [item];
                     createdAt := createdAt this; updatedAt := now |}).
    destruct (schema_removeItem_parts added (contentId item) now') as (Hr & Hi).
    rewrite Hr, Hi. subst added. cbn [items]. split.
    + rewrite hasItem_in. apply bool_decide_eq_true_2. cbn. rewrite fmap_app. set_solver.
    + by apply filter_other_ids_snoc.
Qed.

(** ** Cache keys *)

Lemma numeric_pretty_N_char (x : N) (s : string) :
  numeric s = true -> numeric (String (pretty_N_char x) s) = true.
Proof.
  intros Hs. cbn [numeric]. rewrite Hs, andb_true_r.
  unfold pretty_N_char. by repeat case_match.
Qed.

Lemma numeric_pretty_N_go (x : N) (s : string) :
  numeric s = true -> numeric (pretty_N_go x s) = true.
Proof.
  revert s. induction (N.lt_wf_0 x) as [x _ IH]. intros s Hs.
  assert (x = 0 ∨ 0 < x)%N as [->|Hpos] by lia.
  - by rewrite pretty_N_go_0.
  - rewrite pretty_N_go_step by done. apply IH.
    + by apply N.div_lt.
    + by apply numeric_pretty_N_char.
Qed.

Lemma numeric_pretty_Z (z : Z) : numeric (pretty z) = true.
Proof.
  assert (HN : ∀ n : N, numeric (pretty n) = true).
  { intros n. unfold pretty, pretty_N. case_decide; [done|]. by apply numeric_pretty_N_go. }
  destruct z as [|p|p]; [done|apply (HN (Npos p))|].
  change (pretty (Z.neg p)) with (String "-" (pretty (Npos p))).
  cbn [numeric]. by rewrite (HN (Npos p)).
Qed.

Lemma numeric_colon_free (s : string) : numeric s = true -> colon_free s = true.
Proof.
  induction s as [|c s IH]; [done|]. cbn [numeric colon_free].
  intros [Hc Hs]%andb_true_iff. rewrite IH, andb_true_r by done.
  apply negb_true_iff, bool_decide_eq_false. intros ->.
  apply bool_decide_eq_true in Hc. set_solver.
Qed.

Lemma colon_free_app_colon (a b : string) : colon_free ((a +:+ ":") +:+ b) = false.
Proof.
  induction a as [|c a IH]; [done|].
  change (colon_free (String c ((a +:+ ":") +:+ b)) = false).
  cbn [colon_free]. rewrite IH. apply andb_false_r.
Qed.

(** A string is cut at its last colon in one way only. *)
Lemma split_at_last_colon (a a' b b' : string) :
  colon_free b = true -> colon_free b' = true ->
  (a +:+ ":") +:+ b = (a' +:+ ":") +:+ b' -> a = a' ∧ b = b'.
Proof.
  intros Hb Hb'. revert a'. induction a as [|c a IH]; intros [|c' a'] Heq.
  - change (String ":" b = String ":" b') in Heq. by injection Heq.
  - change (String ":" b = String c' ((a' +:+ ":") +:+ b')) in Heq.
    injection Heq as <- ->. by rewrite colon_free_app_colon in Hb.
  - change (String c ((a +:+ ":") +:+ b) = String ":" b') in Heq.
    injection Heq as -> <-. by rewrite colon_free_app_colon in Hb'.
  - change (String c ((a +:+ ":") +:+ b) = String c' ((a' +:+ ":") +:+ b')) in Heq.
    injection Heq as -> Heq. by destruct (IH _ Heq) as [-> ->].
Qed.

Lemma getListCacheKey_shape (u : string) (p l : Z) (t : option ContentType) :
  CacheServiceImpl.getListCacheKey u p l t =
  match t with
  | None => (((("mylist:" +:+ u) +:+ ":") +:+ pretty p) +:+ ":") +:+ pretty l
  | Some t0 =>
      (((((("mylist:" +:+ u) +:+ ":") +:+ pretty p) +:+ ":") +:+ pretty l) +:+ ":")
      +:+ ContentType_to_string t0
  end.
Proof.
  unfold CacheServiceImpl.getListCacheKey, CacheServiceImpl.CACHE_PREFIX.
  change ("mylist" +:+ ":" +:+ u +:+ ":" +:+ pretty p +:+ ":" +:+ pretty l)
    with ("mylist:" +:+ (u +:+ (":" +:+ (pretty p +:+ (":" +:+ pretty l))))).
  destruct t; by rewrite !append_assoc.
Qed.

Lemma ContentType_to_string_colon_free (t : ContentType) :
  colon_free (ContentType_to_string t) = true ∧ numeric (ContentType_to_string t) = false.
Proof. by destruct t. Qed.

Lemma getListCacheKey_inj (u u' : string) (p p' l l' : Z)
    (t t' : option ContentType) :
  CacheServiceImpl.getListCacheKey u p l t = CacheServiceImpl.getListCacheKey u' p' l' t' ->
  u = u' ∧ p = p' ∧ l = l' ∧ t = t'.
Proof.
  rewrite !getListCacheKey_shape. intros Heq.
  pose proof (numeric_pretty_Z p) as Hp. pose proof (numeric_pretty_Z p') as Hp'.
  pose proof (numeric_pretty_Z l) as Hl. pose proof (numeric_pretty_Z l') as Hl'.
  assert (Hbase : ∀ (x x' : string),
            (((x +:+ ":") +:+ pretty p) +:+ ":") +:+ pretty l
            = (((x' +:+ ":") +:+ pretty p') +:+ ":") +:+ pretty l' ->
            x = x' ∧ p = p' ∧ l = l').
  { intros x x' H.
    apply split_at_last_colon in H as [H Hll]; [|by apply numeric_colon_free..].
    apply split_at_last_colon in H as [H Hpp]; [|by apply numeric_colon_free..].
    by apply (inj pretty) in Hll, Hpp. }
  destruct t as [t0|], t' as [t0'|].
  - destruct (ContentType_to_string_colon_free t0) as [Hc _].
    destruct (ContentType_to_string_colon_free t0') as [Hc' _].
    apply split_at_last_colon in Heq as [Heq Ht]; [|done..].
    apply Hbase in Heq as (Hu & -> & ->).
    apply String.app_inj in Hu as ->.
    assert (t0 = t0') as -> by (by destruct t0, t0'). done.
  - destruct (ContentType_to_string_colon_free t0) as [Hc Hn].
    apply split_at_last_colon in Heq as [_ Ht]; [|by auto using numeric_colon_free..].
    congruence.
  - destruct (ContentType_to_string_colon_free t0') as [Hc Hn].
    apply split_at_last_colon in Heq as [_ Ht]; [|by auto using numeric_colon_free..].
    congruence.
  - apply Hbase in Heq as (Hu & -> & ->). by apply String.app_inj in Hu as ->.
Qed.

(** X5.  Two requests share a cache key exactly when they agree on the
    user, the page, the limit and the filter: the key determines all four,
    whatever characters the user ids contain. *)
Theorem getListCacheKey_injective (u u' : string) (p p' l l' : Z)
    (t t' : option ContentType) :
  CacheServiceImpl.getListCacheKey u p l t = CacheServiceImpl.getListCacheKey u' p' l' t'
  ↔ u = u' ∧ p = p' ∧ l = l' ∧ t = t'.
Proof.
  split; [apply getListCacheKey_inj|].
  by intros (-> & -> & -> & ->).
Qed.

(** ** The in-memory cache over time *)

Lemma expired_later (t now : Z) (e : CacheEntry) :
  t ≤ now -> expired t e = true -> expired now e = true.
Proof.
  unfold expired. destruct (entry_expiry e) as [x|]; [|done].
  intros Hle [Hnz Hlt]%andb_true_iff. rewrite Hnz. cbn.
  apply Z.ltb_lt in Hlt. apply Z.ltb_lt. lia.
Qed.



(** The entry a miss leaves behind. *)
Lemma run_setCachedList_accepted (u : string) (p l : Z) (d : PaginatedMyListResponse)
    (t : option ContentType) (w : World) :
  w_cache_rejects w CallSet = false ->
  ∃ tr, run (CacheServiceImpl.setCachedList cacheActive u p l d t) w =
        (inr tt,
         set_cache (insert (CacheServiceImpl.getListCacheKey u p l t)
                           {| entry_value := d;
                              entry_expiry := Some (w_clock w + 300 * 1000) |}) w, tr).
Proof.
  intros Hacc. unfold CacheServiceImpl.setCachedList. cbn [cache cacheActive].
  rewrite run_try_catch, run_bind, run_await. cbn [handle]. rewrite Hacc.
  cbn. eexists. reflexivity.
Qed.

Lemma run_getMyList_miss_stores (u : string) (q : ListMyItemsQuery) (w : World) :
  w_cache_rejects w CallSet = false ->
  cached_value cacheActive w (query_key u q) = None ->
  ∃ f tr,
    run (MyListService.getMyList cacheActive u q) w =
    (inr (fresh_response w u q),
     set_cache (fun m => <[query_key u q :=
                             {| entry_value := fresh_response w u q;
                                entry_expiry := Some (w_clock w + 300 * 1000) |}]> (f m)) w,
     tr).
Proof.
  intros Hacc Hmiss.
  unfold MyListService.getMyList, query_key, fresh_response in *.
  set (pageNo := MyListService.or_default (query_page q) 1) in *.
  set (pageLimit := MyListService.or_default (query_limit q) 10) in *.
  rewrite run_try_catch, run_bind.
  destruct (run_getCachedList cacheActive u pageNo pageLimit (query_contentType q) w)
    as (f & tr & ->).
  cbn [run_then]. rewrite Hmiss.
  rewrite run_bind, run_getItemsPaginated. cbn [run_then w_mylists set_cache].
  set (result := MyListRepository.paginate (w_mylists w !! u) pageNo pageLimit).
  destruct (Z.of_nat (length (result_items result)) =? 0).
  { rewrite run_bind.
    destruct (run_setCachedList_accepted u pageNo pageLimit
                {| data := []; pagination := result_pagination result |}
                (query_contentType q) (set_cache f w) Hacc) as (tr' & ->).
    cbn. exists f. eexists. reflexivity. }
  set (itemsToProcess := match query_contentType q with
                         | Some t => filter (fun item => contentType item = t) (result_items result)
                         | None => result_items result
                         end).
  rewrite run_bind.
  destruct (run_findContentsByIds
              ((fun item => (contentId item, contentType item)) <$> itemsToProcess)
              (set_cache f w)) as (tr1 & ->).
  cbn [run_then].
  change (contents_found (set_cache f w)) with (contents_found w).
  set (contentDetails := contents_found w _).
  rewrite run_bind.
  set (g := fun item : MyListItem =>
              MyListService.withDetails item <$>
              List.find (fun c => bool_decide (content_id c = contentId item)) contentDetails).
  edestruct (run_mapM_pure
              (fun item =>
                 match List.find (fun c => bool_decide (content_id c = contentId item))
                                 contentDetails with
                 | Some content => Ret (Some (MyListService.withDetails item content))
                 | None => log LWarn "Content not found for MyList item";; Ret None
                 end) g itemsToProcess) as (tr2 & ->).
  { intros x w0. unfold g. destruct (List.find _ contentDetails); cbn; eexists; reflexivity. }
  cbn [run_then]. rewrite omap_id_fmap. fold g.
  rewrite run_bind.
  match goal with
  | |- context [run (CacheServiceImpl.setCachedList cacheActive u pageNo pageLimit ?d ?t) ?w0] =>
      destruct (run_setCachedList_accepted u pageNo pageLimit d t w0 Hacc) as (tr' & ->)
  end.
  cbn. exists f. eexists. reflexivity.
Qed.

Lemma run_getMyList_hit (u : string) (q : ListMyItemsQuery) (w : World)
    (e : CacheEntry) :
  w_cache_rejects w CallGet = false ->
  w_cache w !! query_key u q = Some e ->
  expired (w_clock w) e = false ->
  run (MyListService.getMyList cacheActive u q) w =
  (inr (entry_value e), w,
   [Ev (CacheGet (query_key u q)); Ev (Log LDebug "Cache hit for MyList")]).
Proof.
  intros Hacc He Hfresh. unfold MyListService.getMyList.
  rewrite run_try_catch, run_bind. unfold CacheServiceImpl.getCachedList.
  cbn [cache cacheActive]. rewrite run_try_catch, run_bind, run_await.
  cbn [handle]. rewrite Hacc. unfold query_key in He. rewrite He, Hfresh. done.
Qed.

(** X7.  After a miss on a backend that accepts reads and writes, the
    same request repeated at any time up to 300 seconds later is answered
    from the cache: the result is the one of the first call, and the call
    issues the cache read alone (no store or catalogue operation), also when
    the store has changed in between. *)
Theorem getMyList_repeat_within_ttl_is_cached (u : string) (q : ListMyItemsQuery)
    (w : World) (later : Z) (lists : gmap string MyListDoc) :
  w_cache_rejects w CallGet = false ->
  w_cache_rejects w CallSet = false ->
  cached_value cacheActive w (query_key u q) = None ->
  later ≤ w_clock w + 300000 ->
  let first := run (MyListService.getMyList cacheActive u q) w in
  let w' := set_clock later (set_mylists (fun _ => lists) (world_of first)) in
  let again := run (MyListService.getMyList cacheActive u q) w' in
  result_of again = result_of first ∧
  world_of again = w' ∧
  trace_of again = [Ev (CacheGet (query_key u q)); Ev (Log LDebug "Cache hit for MyList")].
Proof.
  intros Hget Hset Hmiss Hlater first w' again. subst again w' first.
  destruct (run_getMyList_miss_stores u q w Hset Hmiss) as (f & tr & ->).
  unfold world_of, result_of, trace_of. cbn [fst snd].
  match goal with
  | |- context [run _ ?w0] =>
      assert (Hhit : run (MyListService.getMyList cacheActive u q) w0 =
                     (inr (fresh_response w u q), w0,
                      [Ev (CacheGet (query_key u q));
                       Ev (Log LDebug "Cache hit for MyList")]))
  end.
  { apply (run_getMyList_hit u q _
             {| entry_value := fresh_response w u q;
                entry_expiry := Some (w_clock w + 300 * 1000) |}).
    - exact Hget.
    - cbn. apply lookup_insert_eq.
    - unfold expired. cbn. apply andb_false_iff. right. apply Z.ltb_ge. lia. }
  rewrite !Hhit. by cbn [fst snd].
Qed.

Lemma getMyList_repeat_within_ttl_is_cached_witness :
  w_cache_rejects demo_world CallGet = false ∧
  w_cache_rejects demo_world CallSet = false ∧
  cached_value cacheActive demo_world (query_key "user-1" (demo_query 1 10 None)) = None ∧
  1200 ≤ w_clock demo_world + 300000 ∧
  trace_of (run (MyListService.getMyList cacheActive "user-1" (demo_query 1 10 None))
                (set_clock 1200
                   (set_mylists (fun _ => ∅)
                      (world_of (run (MyListService.getMyList cacheActive "user-1"
                                        (demo_query 1 10 None)) demo_world)))))
  = [Ev (CacheGet "mylist:user-1:1:10"); Ev (Log LDebug "Cache hit for MyList")].
Proof.
  assert (H3 : cached_value cacheActive demo_world
                 (query_key "user-1" (demo_query 1 10 None)) = None)
    by (vm_compute; reflexivity).
  assert (H4 : 1200 ≤ w_clock demo_world + 300000) by (cbn; lia).
  split; [reflexivity|]. split; [reflexivity|]. split; [exact H3|]. split; [exact H4|].
  exact (proj2 (proj2 (getMyList_repeat_within_ttl_is_cached "user-1" (demo_query 1 10 None)
                         demo_world 1200 ∅ eq_refl eq_refl H3 H4))).
Defined.

(** X8.  A page cached at a time [t ≥ 0] is never served later than
    [t + 300] seconds: from then on the call assembles a fresh response from
    the store as it is, whether or not an invalidation was missed. *)
Theorem getMyList_after_ttl_is_fresh (u : string) (q : ListMyItemsQuery)
    (w : World) (later : Z) (lists : gmap string MyListDoc) :
  w_cache_rejects w CallSet = false ->
  cached_value cacheActive w (query_key u q) = None ->
  0 ≤ w_clock w ->
  w_clock w + 300000 < later ->
  let first := run (MyListService.getMyList cacheActive u q) w in
  let w' := set_clock later (set_mylists (fun _ => lists) (world_of first)) in
  result_of (run (MyListService.getMyList cacheActive u q) w') = inr (fresh_response w' u q).
Proof.
  intros Hset Hmiss Hclock Hlater first w'. subst w' first.
  destruct (run_getMyList_miss_stores u q w Hset Hmiss) as (f & tr & ->).
  unfold world_of. cbn [fst snd].
  match goal with
  | |- result_of (run _ ?w0) = _ => destruct (run_getMyList cacheActive u q w0) as (f' & tr' & ->)
  end.
  unfold result_of. cbn [fst]. f_equal.
  unfold cached_value.
  cbn [cache cacheActive w_cache_rejects set_clock set_mylists set_cache w_cache w_clock].
  destruct (w_cache_rejects w CallGet); [done|].
  rewrite lookup_insert_eq. unfold expired. cbn [entry_expiry].
  change (300 * 1000) with 300000.
  assert ((w_clock w + 300000 =? 0) = false) as -> by (apply Z.eqb_neq; lia).
  assert ((w_clock w + 300000 <? later) = true) as -> by (apply Z.ltb_lt; lia).
  done.
Qed.

Lemma getMyList_after_ttl_is_fresh_witness :
  w_cache_rejects demo_world CallSet = false ∧
  cached_value cacheActive demo_world (query_key "user-1" (demo_query 1 10 None)) = None ∧
  0 ≤ w_clock demo_world ∧
  w_clock demo_world + 300000 < 400000 ∧
  ∃ resp,
    result_of (run (MyListService.getMyList cacheActive "user-1" (demo_query 1 10 None))
                (set_clock 400000
                   (set_mylists (fun _ => ∅)
                      (world_of (run (MyListService.getMyList cacheActive "user-1"
                                        (demo_query 1 10 None)) demo_world)))))
    = inr resp ∧ data resp = [].
Proof.
  assert (H2 : cached_value cacheActive demo_world
                 (query_key "user-1" (demo_query 1 10 None)) = None)
    by (vm_compute; reflexivity).
  assert (H3 : 0 ≤ w_clock demo_world) by (cbn; lia).
  assert (H4 : w_clock demo_world + 300000 < 400000) by (cbn; lia).
  split; [reflexivity|]. split; [exact H2|]. split; [exact H3|]. split; [exact H4|].
  eexists. split.
  - exact (getMyList_after_ttl_is_fresh "user-1" (demo_query 1 10 None)
             demo_world 400000 ∅ eq_refl H2 H3 H4).
  - vm_compute. reflexivity.
Defined.

(** ** Mutations and what follows them *)

Lemma add_succeeds_iff (cs : CacheService) (w : World) (u : string)
    (request : AddToMyListRequest) :
  result_of (run (MyListService.addToMyList cs u request) w) = inr tt ->
  user_exists w u = true ∧
  content_exists w (req_contentId request) (req_contentType request) = true ∧
  in_list w u (req_contentId request) = false.
Proof.
  destruct (run_addToMyList cs w u request) as (f & tr & ->).
  destruct (user_exists w u); cbn [negb]; [|done].
  destruct (content_exists w _ _); cbn [negb]; [|done].
  by destruct (in_list w u _).
Qed.

Lemma world_after_add (cs : CacheService) (w : World) (u : string)
    (request : AddToMyListRequest) :
  result_of (run (MyListService.addToMyList cs u request) w) = inr tt ->
  world_of (run (MyListService.addToMyList cs u request) w) =
  world_of (run (CacheServiceImpl.invalidateUserList cs u)
              (set_mylists
                 (insert u (pushed w u
                              {| contentId := req_contentId request;
                                 contentType := req_contentType request;
                                 addedAt := w_clock w |} (w_clock w))) w)).
Proof.
  intros Hok. destruct (add_succeeds_iff cs w u request Hok) as (Hu & Hc & Hin).
  unfold MyListService.addToMyList.
  rewrite run_try_catch, run_bind, run_UserRepository_exists, Hu.
  cbn [negb run_then]. rewrite run_bind, run_contentExists, Hc.
  cbn [negb run_then]. rewrite run_bind, run_itemExists, Hin.
  cbn [run_then]. rewrite run_bind, run_await. cbn [handle run_then].
  rewrite run_bind, run_addItem_fresh by done. cbn [run_then].
  rewrite run_bind.
  match goal with
  | |- context [run (CacheServiceImpl.invalidateUserList cs u) ?w0] =>
      destruct (run_invalidateUserList cs u w0) as (f & tr & ->)
  end.
  done.
Qed.

Lemma world_after_remove (cs : CacheService) (w : World) (u cid : string) (d : MyListDoc) :
  w_mylists w !! u = Some d ->
  world_of (run (MyListService.removeFromMyList cs u cid) w) =
  world_of (run (CacheServiceImpl.invalidateUserList cs u)
              (set_mylists (insert u (pulled d cid (w_clock w))) w)).
Proof.
  intros Hd. unfold MyListService.removeFromMyList.
  rewrite run_try_catch, run_bind, run_removeItem, Hd.
  cbn [negb run_then]. rewrite run_bind.
  match goal with
  | |- context [run (CacheServiceImpl.invalidateUserList cs u) ?w0] =>
      destruct (run_invalidateUserList cs u w0) as (f & tr & ->)
  end.
  done.
Qed.

Lemma user_items_after_add (cs : CacheService) (w : World) (u : string)
    (request : AddToMyListRequest) :
  result_of (run (MyListService.addToMyList cs u request) w) = inr tt ->
  user_items (world_of (run (MyListService.addToMyList cs u request) w)) u =
  user_items w u ++ [{| contentId := req_contentId request;
                        contentType := req_contentType request;
                        addedAt := w_clock w |}].
Proof.
  intros Hok. rewrite world_after_add by done.
  match goal with
  | |- context [run (CacheServiceImpl.invalidateUserList cs u) ?w0] =>
      destruct (run_invalidateUserList cs u w0) as (f & tr & ->)
  end.
  unfold world_of, user_items, pushed. cbn [fst snd w_mylists set_cache set_mylists].
  rewrite lookup_insert_eq. by destruct (w_mylists w !! u).
Qed.

Lemma lookups_after_add (cs : CacheService) (w : World) (u : string)
    (request : AddToMyListRequest) :
  let w1 := world_of (run (MyListService.addToMyList cs u request) w) in
  w_users w1 = w_users w ∧ w_movies w1 = w_movies w ∧ w_tvshows w1 = w_tvshows w ∧
  w_cache_rejects w1 = w_cache_rejects w ∧ w_clock w1 = w_clock w.
Proof.
  intros w1. subst w1. destruct (run_addToMyList cs w u request) as (f & tr & ->).
  destruct (negb (user_exists w u)); [done|].
  destruct (negb (content_exists w _ _)); [done|].
  by destruct (in_list w u _).
Qed.



(** X10.  [removeFromMyList] fails, with [ItemNotFoundError] and
    without any effect, exactly when the user has no aggregate.  Otherwise
    it succeeds; afterwards no entry with the id is left, and the other
    entries are there in their old order. *)
Theorem removeFromMyList_effect (cs : CacheService) (w : World) (u cid : string) :
  let r := run (MyListService.removeFromMyList cs u cid) w in
  match w_mylists w !! u with
  | Some d =>
      result_of r = inr tt ∧
      user_items (world_of r) u = filter (fun it => contentId it ≠ cid) (items d) ∧
      in_list (world_of r) u cid = false
  | None => result_of r = inl (ItemNotFoundError cid) ∧ world_of r = w
  end.
Proof.
  intros r. subst r.
  destruct (run_removeFromMyList cs w u cid) as (f & tr & ->).
  destruct (w_mylists w !! u) as [d|] eqn:Hd; [|done].
  unfold result_of, world_of, in_list, user_items.
  cbn [fst snd w_mylists set_cache set_mylists]. rewrite lookup_insert_eq.
  split; [done|]. split; [done|].
  apply bool_decide_eq_false_2. cbn [pulled items].
  rewrite list_elem_of_fmap. intros (it & -> & Hit).
  apply list_elem_of_filter in Hit. naive_solver.
Qed.



(** ** What the catalogue returns *)

Lemma contents_found_lookup (w : World) (ids : list (string * ContentType))
    (item : string * ContentType) :
  (∀ b, b ∈ ids -> b.1 = item.1 -> b.2 = item.2) -> item ∈ ids ->
  ContentRepository.contentMap_of
    (filter (fun m => movie_id m ∈ (filter (fun i : string * ContentType => i.2 = Movie) ids).*1)
            (w_movies w))
    (filter (fun t => tvshow_id t ∈ (filter (fun i : string * ContentType => i.2 = TVShow) ids).*1)
            (w_tvshows w)) !! item.1
  = catalogue_entry w item.1 item.2.
Proof.
  intros Hcons Hin.
  assert (Hmem : ∀ t, item.1 ∈ (filter (fun i : string * ContentType => i.2 = t) ids).*1
                      ↔ item.2 = t).
  { intros t. rewrite list_elem_of_fmap. split.
    - intros (b & Hb & Hf). apply list_elem_of_filter in Hf as [Ht Hf].
      rewrite <- Ht. symmetry. by apply Hcons.
    - intros <-. exists item. split; [done|]. by apply list_elem_of_filter. }
  rewrite contentMap_of_lookup, !filter_key_of_members.
  unfold catalogue_entry.
  destruct (item.2) eqn:Ht.
  - rewrite (decide_False (P := _ ∈ (filter (fun i => i.2 = TVShow) ids).*1))
      by (rewrite Hmem; congruence).
    rewrite decide_True by (by apply Hmem). done.
  - rewrite (decide_True (P := _ ∈ (filter (fun i => i.2 = TVShow) ids).*1))
      by (by apply Hmem).
    destruct (last (filter _ (w_tvshows w))); [done|].
    rewrite decide_False by (rewrite Hmem; congruence). done.
Qed.

(** X12.  When no id is requested under both types, [findContentsByIds]
    returns, in the order of the request, the catalogue document of every
    requested (id, type) that has one, and nothing for the others; it
    changes nothing. *)
Theorem findContentsByIds_in_request_order (w : World) (ids : list (string * ContentType)) :
  (∀ a b, a ∈ ids -> b ∈ ids -> a.1 = b.1 -> a.2 = b.2) ->
  result_of (run (ContentRepository.findContentsByIds ids) w)
  = inr (omap (fun item => catalogue_entry w item.1 item.2) ids) ∧
  world_of (run (ContentRepository.findContentsByIds ids) w) = w.
Proof.
  intros Hcons. destruct (run_findContentsByIds ids w) as [tr ->].
  split; [|done]. unfold result_of. cbn [fst]. f_equal.
  unfold contents_found. apply omap_ext_in. intros item Hin.
  apply contents_found_lookup; [|done]. intros b Hb Heq. by apply Hcons.
Qed.

Lemma findContentsByIds_in_request_order_witness :
  result_of (run (ContentRepository.findContentsByIds
                    [("movie-2", Movie); ("movie-9", Movie); ("tvshow-1", TVShow);
                     ("movie-1", Movie)]) demo_world)
  = inr [CMovie (demo_movie "movie-2" "Inception");
         CTVShow (demo_tvshow "tvshow-1" "Breaking Bad");
         CMovie (demo_movie "movie-1" "The Matrix")].
Proof.
  refine (eq_trans (proj1 (findContentsByIds_in_request_order demo_world
            [("movie-2", Movie); ("movie-9", Movie); ("tvshow-1", TVShow);
             ("movie-1", Movie)] _)) _).
  - intros a b Ha Hb.
    repeat (apply elem_of_cons in Ha as [->|Ha]); try (by apply elem_of_nil in Ha);
    repeat (apply elem_of_cons in Hb as [->|Hb]); try (by apply elem_of_nil in Hb);
    cbn; intros; congruence.
  - vm_compute. reflexivity.
Defined.

(** ** Reading after writing *)

Lemma find_resolves_at (w : World) (l : list MyListItem) (it : MyListItem) :
  (∀ b, b ∈ l -> contentId b = contentId it -> contentType b = contentType it) ->
  it ∈ l ->
  List.find (fun c => bool_decide (content_id c = contentId it))
            (contents_found w ((fun item => (contentId item, contentType item)) <$> l))
  = catalogue_entry w (contentId it) (contentType it).
Proof.
  intros Hcons Hin. unfold contents_found.
  set (ids := (fun item => (contentId item, contentType item)) <$> l).
  rewrite find_in_found by apply contentMap_of_content_id.
  rewrite decide_True.
  2:{ subst ids. rewrite <- list_fmap_compose. apply list_elem_of_fmap. by exists it. }
  apply (contents_found_lookup w ids (contentId it, contentType it)).
  - intros b Hb. subst ids. apply list_elem_of_fmap in Hb as (x & -> & Hx).
    cbn. by apply Hcons.
  - subst ids. apply list_elem_of_fmap. by exists it.
Qed.

Lemma withDetails_entry (it : MyListItem) (c : Content) :
  d_contentId (MyListService.withDetails it c) = contentId it ∧
  d_contentType (MyListService.withDetails it c) = contentType it ∧
  d_addedAt (MyListService.withDetails it c) = addedAt it.
Proof. by destruct c. Qed.

(** Whatever a fresh page shows is an entry of the user's own list, of the
    requested type when one was requested. *)
Lemma fresh_response_entries (w : World) (u : string) (q : ListMyItemsQuery)
    (d : MyListItemWithDetails) :
  d ∈ data (fresh_response w u q) ->
  ∃ it c, it ∈ user_items w u ∧ d = MyListService.withDetails it c ∧
          (∀ t, query_contentType q = Some t -> contentType it = t).
Proof.
  rewrite fresh_response_data_found. cbn zeta.
  rewrite list_elem_of_omap. intros (it & Hit & Hd).
  apply fmap_Some in Hd as (c & _ & ->).
  exists it, c. split; [|split; [done|]].
  - eapply elem_of_submseteq; [|apply fetched_page_submseteq].
    destruct (query_contentType q); [|done].
    apply list_elem_of_filter in Hit. tauto.
  - intros t Ht. rewrite Ht in Hit. apply list_elem_of_filter in Hit. tauto.
Qed.

Lemma fresh_response_ext (w w' : World) (u : string) (q : ListMyItemsQuery) :
  w_mylists w' !! u = w_mylists w !! u ->
  w_movies w' = w_movies w -> w_tvshows w' = w_tvshows w ->
  fresh_response w' u q = fresh_response w u q.
Proof.
  intros Hl Hm Ht. unfold fresh_response, contents_found. by rewrite Hl, Hm, Ht.
Qed.

(** After invalidation nothing of the user is served from the cache:
    without a backend trivially, with one when the id is free of
    regular-expression syntax and the backend accepts the call. *)
Lemma cached_after_invalidate (cs : CacheService) (w : World) (u : string)
    (later : Z) (q : ListMyItemsQuery) :
  cache cs = None ∨ (plain_id u = true ∧ w_cache_rejects w CallDeletePattern = false) ->
  cached_value cs
    (set_clock later (world_of (run (CacheServiceImpl.invalidateUserList cs u) w)))
    (query_key u q) = None.
Proof.
  intros Hcs. unfold cached_value. destruct cs as [[[]|]]; [|done].
  destruct Hcs as [Hcs|[Hplain Hacc]]; [done|].
  cbn [cache]. destruct (w_cache_rejects _ CallGet); [done|].
  change (w_cache (set_clock later ?w0)) with (w_cache w0).
  unfold query_key.
  change {| cache := Some TheBackend |} with cacheActive.
  by rewrite invalidateUserList_reaches_own_keys.
Qed.





Lemma user_items_after_remove (cs : CacheService) (w : World) (u cid : string)
    (d : MyListDoc) :
  w_mylists w !! u = Some d ->
  user_items (world_of (run (MyListService.removeFromMyList cs u cid) w)) u
  = filter (fun it => contentId it ≠ cid) (items d).
Proof.
  intros Hd. destruct (run_removeFromMyList cs w u cid) as (f & tr & ->).
  rewrite Hd. unfold world_of, user_items.
  cbn [fst snd w_mylists set_cache set_mylists]. by rewrite lookup_insert_eq.
Qed.

Lemma remove_succeeds_iff (cs : CacheService) (w : World) (u cid : string) :
  result_of (run (MyListService.removeFromMyList cs u cid) w) = inr tt ->
  is_Some (w_mylists w !! u).
Proof.
  destruct (run_removeFromMyList cs w u cid) as (f & tr & ->).
  by destruct (w_mylists w !! u).
Qed.

(** X15.  After a successful [removeFromMyList] no page of the user's
    list shows the removed id, whatever page, limit and filter are asked
    for.  This holds without the cache, and with it when the user id is
    free of regular-expression syntax and the backend accepted the
    invalidation. *)
Theorem removed_entry_is_not_listed (cs : CacheService) (w : World) (u cid : string)
    (later : Z) (q : ListMyItemsQuery) :
  cache cs = None ∨ (plain_id u = true ∧ w_cache_rejects w CallDeletePattern = false) ->
  result_of (run (MyListService.removeFromMyList cs u cid) w) = inr tt ->
  let w1 := set_clock later (world_of (run (MyListService.removeFromMyList cs u cid) w)) in
  ∃ resp,
    result_of (run (MyListService.getMyList cs u q) w1) = inr resp ∧
    ∀ d, d ∈ data resp -> d_contentId d ≠ cid.
Proof.
  intros Hcs Hok w1.
  destruct (remove_succeeds_iff cs w u cid Hok) as [doc Hdoc].
  pose proof (user_items_after_remove cs w u cid doc Hdoc) as Hitems.
  assert (Hmiss : cached_value cs w1 (query_key u q) = None).
  { subst w1. rewrite (world_after_remove _ _ _ _ doc) by done.
    apply cached_after_invalidate.
    destruct Hcs as [?|[? ?]]; [by left|by right]. }
  destruct (run_getMyList cs u q w1) as (f & tr & Hrun).
  rewrite Hmiss in Hrun. rewrite Hrun.
  exists (fresh_response w1 u q). split; [done|].
  intros d Hd. apply fresh_response_entries in Hd as (it & c & Hit & -> & _).
  destruct (withDetails_entry it c) as (-> & _).
  change (user_items w1 u)
    with (user_items (world_of (run (MyListService.removeFromMyList cs u cid) w)) u) in Hit.
  rewrite Hitems in Hit. apply list_elem_of_filter in Hit. tauto.
Qed.

Lemma removed_entry_is_not_listed_witness :
  ∃ resp,
    result_of (run (MyListService.getMyList cacheActive "user-1" (demo_query 1 10 None))
                 (set_clock 2000
                    (world_of (run (MyListService.removeFromMyList cacheActive "user-1"
                                      "tvshow-1") demo_world))))
    = inr resp ∧
    ∀ d, d ∈ data resp -> d_contentId d ≠ "tvshow-1".
Proof.
  apply (removed_entry_is_not_listed cacheActive demo_world "user-1" "tvshow-1" 2000
           (demo_query 1 10 None)).
  - right. split; vm_compute; reflexivity.
  - vm_compute. reflexivity.
Defined.

Lemma length_omap_le {A B : Type} (f : A -> option B) (l : list A) :
  (length (omap f l) ≤ length l)%nat.
Proof.
  induction l as [|x l IH]; [done|].
  cbn [omap list_omap]. destruct (f x); cbn [length]; lia.
Qed.

(** X16.  A page assembled on a cache miss, for [page ≥ 1] and
    [limit ≥ 1], never holds more than [limit] entries; each of them is an
    entry of the user's own list, shown with that entry's id, type and
    [addedAt]; and under a type filter every one is of the requested type. *)
Theorem getMyList_fresh_page_bounds (cs : CacheService) (w : World) (u : string)
    (q : ListMyItemsQuery) :
  cached_value cs w (query_key u q) = None ->
  1 ≤ MyListService.or_default (query_page q) 1 ->
  1 ≤ MyListService.or_default (query_limit q) 10 ->
  ∃ resp,
    result_of (run (MyListService.getMyList cs u q) w) = inr resp ∧
    Z.of_nat (length (data resp)) ≤ MyListService.or_default (query_limit q) 10 ∧
    (∀ d, d ∈ data resp ->
       ∃ it, it ∈ user_items w u ∧
             d_contentId d = contentId it ∧ d_contentType d = contentType it ∧
             d_addedAt d = addedAt it) ∧
    (∀ t d, query_contentType q = Some t -> d ∈ data resp -> d_contentType d = t).
Proof.
  intros Hmiss Hp Hl.
  destruct (run_getMyList cs u q w) as (f & tr & Hrun).
  rewrite Hmiss in Hrun. rewrite Hrun.
  exists (fresh_response w u q). split; [done|]. split; [|split].
  - rewrite fresh_response_data_found. cbn zeta.
    etrans; [apply inj_le, length_omap_le|].
    set (fetched := fetched_page w u _ _).
    assert (Hf : Z.of_nat (length fetched) ≤ MyListService.or_default (query_limit q) 10).
    { subst fetched. rewrite <- page_items_fetched, page_items_window by done.
      rewrite length_take. lia. }
    destruct (query_contentType q); [|done].
    pose proof (length_filter (fun it => contentType it = c) fetched). lia.
  - intros d Hd. apply fresh_response_entries in Hd as (it & c & Hit & -> & _).
    exists it. split; [done|]. apply withDetails_entry.
  - intros t d Ht Hd. apply fresh_response_entries in Hd as (it & c & Hit & -> & Hty).
    destruct (withDetails_entry it c) as (_ & -> & _). by apply Hty.
Qed.

Lemma getMyList_fresh_page_bounds_witness :
  ∃ resp,
    result_of (run (MyListService.getMyList cacheActive "user-1"
                      (demo_query 1 2 (Some Movie))) demo_world) = inr resp ∧
    Z.of_nat (length (data resp)) ≤ 2 ∧
    (∀ d, d ∈ data resp ->
       ∃ it, it ∈ user_items demo_world "user-1" ∧
             d_contentId d = contentId it ∧ d_contentType d = contentType it ∧
             d_addedAt d = addedAt it) ∧
    (∀ t d, Some Movie = Some t -> d ∈ data resp -> d_contentType d = t).
Proof.
  apply (getMyList_fresh_page_bounds cacheActive demo_world "user-1"
           (demo_query 1 2 (Some Movie))).
  - vm_compute. reflexivity.
  - vm_compute. discriminate.
  - vm_compute. discriminate.
Defined.

(** ** A coherent cache *)

Lemma run_getCachedList_shrinks (cs : CacheService) (u : string) (p l : Z)
    (t : option ContentType) (w : World) :
  ∃ f tr, run (CacheServiceImpl.getCachedList cs u p l t) w =
          (inr (cached_value cs w (CacheServiceImpl.getListCacheKey u p l t)),
           set_cache f w, tr) ∧
          f (w_cache w) ⊆ w_cache w.
Proof.
  unfold CacheServiceImpl.getCachedList, cached_value.
  destruct (cache cs) as [b|]; cbn.
  2:{ exists (fun m => m), []. rewrite set_cache_id. by split. }
  destruct (w_cache_rejects w CallGet); cbn.
  { exists (fun m => m). eexists. rewrite set_cache_id. by split. }
  destruct (w_cache w !! _) as [e|]; cbn.
  2:{ exists (fun m => m). eexists. rewrite set_cache_id. by split. }
  destruct (expired (w_clock w) e); cbn.
  - eexists. eexists. split; [reflexivity|]. apply delete_subseteq.
  - exists (fun m => m). eexists. rewrite set_cache_id. by split.
Qed.

Lemma run_setCachedList_grows (cs : CacheService) (u : string) (p l : Z)
    (d : PaginatedMyListResponse) (t : option ContentType) (w : World) :
  ∃ f tr, run (CacheServiceImpl.setCachedList cs u p l d t) w = (inr tt, set_cache f w, tr) ∧
          (f (w_cache w) = w_cache w ∨
           ∃ e, entry_value e = d ∧
                f (w_cache w) = <[CacheServiceImpl.getListCacheKey u p l t := e]> (w_cache w)).
Proof.
  unfold CacheServiceImpl.setCachedList.
  destruct (cache cs) as [b|]; cbn.
  2:{ exists (fun m => m), []. rewrite set_cache_id. by split; [|left]. }
  destruct (w_cache_rejects w CallSet); cbn.
  - exists (fun m => m). eexists. rewrite set_cache_id. by split; [|left].
  - eexists. eexists. split; [reflexivity|]. right.
    eexists. split; [|reflexivity]. reflexivity.
Qed.

Lemma run_invalidateUserList_shrinks (cs : CacheService) (u : string) (w : World) :
  w_cache (world_of (run (CacheServiceImpl.invalidateUserList cs u) w)) ⊆ w_cache w.
Proof.
  unfold CacheServiceImpl.invalidateUserList.
  destruct (cache cs) as [b|]; cbn; [|done].
  destruct (w_cache_rejects w CallDeletePattern); cbn; [done|].
  destruct (RegExp w _) as [test|]; cbn; [|done].
  apply map_filter_subseteq.
Qed.

(** What a [getMyList] can leave in the cache: what was there, and the page
    it assembled, under the request's own key. *)
Lemma getMyList_cache_effect (cs : CacheService) (u : string) (q : ListMyItemsQuery)
    (w : World) (k : string) (e : CacheEntry) :
  w_cache (world_of (run (MyListService.getMyList cs u q) w)) !! k = Some e ->
  w_cache w !! k = Some e ∨ (k = query_key u q ∧ entry_value e = fresh_response w u q).
Proof.
  unfold MyListService.getMyList, query_key, fresh_response.
  set (pageNo := MyListService.or_default (query_page q) 1).
  set (pageLimit := MyListService.or_default (query_limit q) 10).
  rewrite run_try_catch, run_bind.
  destruct (run_getCachedList_shrinks cs u pageNo pageLimit (query_contentType q) w)
    as (f & tr & -> & Hf).
  cbn [run_then].
  destruct (cached_value cs w _) as [c|].
  { cbn. intros He. left. by eapply lookup_weaken. }
  rewrite run_bind, run_getItemsPaginated. cbn [run_then w_mylists set_cache].
  set (result := MyListRepository.paginate (w_mylists w !! u) pageNo pageLimit).
  destruct (Z.of_nat (length (result_items result)) =? 0).
  { rewrite run_bind.
    match goal with
    | |- context [run (CacheServiceImpl.setCachedList cs u pageNo pageLimit ?d ?t) ?w0] =>
        destruct (run_setCachedList_grows cs u pageNo pageLimit d t w0)
          as (f' & tr' & -> & Hgrow)
    end.
    cbn. cbn in Hgrow. intros Hlook.
    destruct Hgrow as [Heq|(e' & He' & Heq)]; rewrite Heq in Hlook.
    - left. by eapply lookup_weaken.
    - destruct (decide (k = CacheServiceImpl.getListCacheKey u pageNo pageLimit
                              (query_contentType q))) as [->|Hne].
      + rewrite lookup_insert_eq in Hlook. injection Hlook as <-. by right.
      + rewrite lookup_insert_ne in Hlook by done. left. by eapply lookup_weaken. }
  set (itemsToProcess := match query_contentType q with
                         | Some t => filter (fun item => contentType item = t) (result_items result)
                         | None => result_items result
                         end).
  rewrite run_bind.
  destruct (run_findContentsByIds
              ((fun item => (contentId item, contentType item)) <$> itemsToProcess)
              (set_cache f w)) as (tr1 & ->).
  cbn [run_then].
  change (contents_found (set_cache f w)) with (contents_found w).
  set (contentDetails := contents_found w _).
  rewrite run_bind.
  set (g := fun item : MyListItem =>
              MyListService.withDetails item <$>
              List.find (fun c => bool_decide (content_id c = contentId item)) contentDetails).
  edestruct (run_mapM_pure
              (fun item =>
                 match List.find (fun c => bool_decide (content_id c = contentId item))
                                 contentDetails with
                 | Some content => Ret (Some (MyListService.withDetails item content))
                 | None => log LWarn "Content not found for MyList item";; Ret None
                 end) g itemsToProcess) as (tr2 & ->).
  { intros x w0. unfold g. destruct (List.find _ contentDetails); cbn; eexists; reflexivity. }
  cbn [run_then]. rewrite omap_id_fmap. fold g.
  rewrite run_bind.
  match goal with
  | |- context [run (CacheServiceImpl.setCachedList cs u pageNo pageLimit ?d ?t) ?w0] =>
      destruct (run_setCachedList_grows cs u pageNo pageLimit d t w0)
        as (f' & tr' & -> & Hgrow)
  end.
  cbn. cbn in Hgrow. intros Hlook.
  destruct Hgrow as [Heq|(e' & He' & Heq)]; rewrite Heq in Hlook.
  - left. by eapply lookup_weaken.
  - destruct (decide (k = CacheServiceImpl.getListCacheKey u pageNo pageLimit
                            (query_contentType q))) as [->|Hne].
    + rewrite lookup_insert_eq in Hlook. injection Hlook as <-. by right.
    + rewrite lookup_insert_ne in Hlook by done. left. by eapply lookup_weaken.
Qed.

Lemma fresh_response_key (w : World) (u u' : string) (q q' : ListMyItemsQuery) :
  query_key u q = query_key u' q' -> fresh_response w u q = fresh_response w u' q'.
Proof.
  unfold query_key. intros Hk.
  apply getListCacheKey_inj in Hk as (-> & Hp & Hl & Ht).
  unfold fresh_response. by rewrite Hp, Hl, Ht.
Qed.

Lemma cached_value_entry (cs : CacheService) (w : World) (k : string)
    (c : PaginatedMyListResponse) :
  cached_value cs w k = Some c -> ∃ e, w_cache w !! k = Some e ∧ entry_value e = c.
Proof.
  unfold cached_value. destruct (cache cs); [|done].
  destruct (w_cache_rejects w CallGet); [done|].
  destruct (w_cache w !! k) as [e|]; [|done].
  destruct (expired (w_clock w) e); [done|].
  intros [= <-]. by exists e.
Qed.

Lemma coherent_after_invalidate (w wmid : World) (u : string) :
  coherent w ->
  plain_id u = true ->
  w_cache_rejects wmid CallDeletePattern = false ->
  w_cache wmid = w_cache w ->
  w_movies wmid = w_movies w -> w_tvshows wmid = w_tvshows w ->
  (∀ u', u' ≠ u -> w_mylists wmid !! u' = w_mylists w !! u') ->
  coherent (world_of (run (CacheServiceImpl.invalidateUserList cacheActive u) wmid)).
Proof.
  intros Hcoh Hplain Hacc Hc Hm Ht Hl u' q' e He.
  destruct (decide (u' = u)) as [->|Hne].
  { unfold query_key in He.
    by rewrite invalidateUserList_reaches_own_keys in He. }
  eapply lookup_weaken in He; [|apply run_invalidateUserList_shrinks].
  rewrite Hc in He. rewrite (Hcoh _ _ _ He).
  destruct (run_invalidateUserList cacheActive u wmid) as (f & tr & ->).
  symmetry. apply fresh_response_ext; cbn; [by apply Hl|done..].
Qed.



(** ** The endpoints *)


(** X19.  The remove endpoint answers 204 without a body whenever the
    user has an aggregate, whether or not the id was in it, and 404
    [ITEM_NOT_FOUND] exactly when the user has none. *)
Theorem delete_item_status (cs : CacheService) (w : World) (u cid : string)
    (traceId : string) (reqTraceId : option string) :
  let r := run (MyListController.removeFromMyList cs u cid traceId reqTraceId) w in
  world_of r = world_of (run (MyListService.removeFromMyList cs u cid) w) ∧
  result_of r =
  inr (match w_mylists w !! u with
       | Some _ => {| status := 204; body := NoContent |}
       | None => error_reply 404 "ITEM_NOT_FOUND" (ItemNotFoundError cid) traceId
       end).
Proof.
  intros r. subst r. unfold MyListController.removeFromMyList.
  rewrite run_try_catch, run_bind.
  destruct (run_removeFromMyList cs w u cid) as (f & tr & ->).
  by destruct (w_mylists w !! u).
Qed.


(** ** Calls in flight together *)

Lemma handle_keeps_ids_distinct {R : Type} (o : op R) (w : World) :
  ids_distinct w -> ids_distinct (handle o w).2.
Proof.
  intros Hnd.
  destruct o as [id|id|id|ids|ids|u|u cid|u item now|u cid now|key|key v ttl|pattern| |l m];
    cbn [handle snd]; try done.
  - (* push *)
    destruct (w_mylists w !! u) as [d|] eqn:Hd.
    + destruct (hasItem (contentId item) d) eqn:Hhas; [done|].
      intros u'. unfold user_items. cbn [snd w_mylists set_mylists].
      destruct (decide (u' = u)) as [->|Hne].
      * rewrite lookup_insert_eq. cbn [items]. rewrite fmap_app.
        apply NoDup_app. split; [|split].
        -- specialize (Hnd u). unfold user_items in Hnd. by rewrite Hd in Hnd.
        -- intros x Hx Hx'. apply list_elem_of_singleton in Hx'. subst x.
           rewrite hasItem_in in Hhas. by apply bool_decide_eq_false in Hhas.
        -- apply NoDup_singleton.
      * rewrite lookup_insert_ne by done. apply (Hnd u').
    + intros u'. unfold user_items. cbn [snd w_mylists set_mylists].
      destruct (decide (u' = u)) as [->|Hne].
      * rewrite lookup_insert_eq. apply NoDup_singleton.
      * rewrite lookup_insert_ne by done. apply (Hnd u').
  - (* pull *)
    destruct (w_mylists w !! u) as [d|] eqn:Hd; [|done].
    intros u'. unfold user_items. cbn [snd w_mylists set_mylists].
    destruct (decide (u' = u)) as [->|Hne].
    + rewrite lookup_insert_eq. cbn [items].
      specialize (Hnd u). unfold user_items in Hnd. rewrite Hd in Hnd.
      eapply submseteq_NoDup; [|exact Hnd].
      apply fmap_submseteq, sublist_submseteq, sublist_filter.
    + rewrite lookup_insert_ne by done. apply (Hnd u').
  - (* cache get *)
    destruct (w_cache_rejects w CallGet); [done|].
    destruct (w_cache w !! key) as [e|]; [|done].
    by destruct (expired (w_clock w) e).
  - by destruct (w_cache_rejects w CallSet).
  - destruct (w_cache_rejects w CallDeletePattern); [done|].
    by destruct (RegExp w _).
Qed.



(** A block of the schedule that lets one call run a part [p] of its
    program to the end is one [run] of [p]. *)
Lemma sched_block {A B C : Type} (K : prog A -> prog B)
    (HK : ∀ R (o : op R) (k : Error + R -> prog A),
            K (Await o k) = Await o (fun r => K (k r)))
    (p : prog A) :
  ∀ (tasks : list (prog B)) (i : nat) (w : World),
    tasks !! i = Some (K p) ->
    sched (replicate (length (trace_of (run p w))) i) tasks w
    = (<[i := K (settled (result_of (run p w)))]> tasks, world_of (run p w)).
Proof.
  induction p as [a|e|R o k IH]; intros tasks i w Hi.
  - cbn. by rewrite list_insert_id.
  - cbn. by rewrite list_insert_id.
  - cbn [run]. destruct (handle o w) as [r w'] eqn:Hh.
    specialize (IH r (<[i := K (k r)]> tasks) i w').
    destruct (run (k r) w') as [[res w''] tr] eqn:Hrun.
    unfold trace_of, result_of, world_of in *. cbn [fst snd length replicate sched] in *.
    rewrite Hi, HK. cbn [step_task]. rewrite Hh.
    rewrite IH, list_insert_insert_eq; [done|].
    apply list_lookup_insert_eq. by eapply lookup_lt_Some.
Qed.

Lemma sched_app {A : Type} (s1 s2 : list nat) (tasks : list (prog A)) (w : World) :
  sched (s1 ++ s2) tasks w = sched s2 (sched s1 tasks w).1 (sched s1 tasks w).2.
Proof.
  revert tasks w. induction s1 as [|i s1 IH]; intros tasks w; [done|].
  cbn [app sched]. destruct (tasks !! i) as [p|]; [|apply IH].
  destruct (step_task p w) as [p' w']. apply IH.
Qed.



(** ** What the calls leave alone *)

(** X23.  [addToMyList] and [removeFromMyList] of one user never touch
    the user directory, the catalogue or the aggregate of any other user;
    [getMyList] touches nothing but the cache. *)
Theorem calls_leave_the_rest_alone (cs : CacheService) (w : World) (u : string) :
  (∀ request,
     let w1 := world_of (run (MyListService.addToMyList cs u request) w) in
     w_users w1 = w_users w ∧ w_movies w1 = w_movies w ∧ w_tvshows w1 = w_tvshows w ∧
     ∀ u', u' ≠ u -> w_mylists w1 !! u' = w_mylists w !! u') ∧
  (∀ cid,
     let w1 := world_of (run (MyListService.removeFromMyList cs u cid) w) in
     w_users w1 = w_users w ∧ w_movies w1 = w_movies w ∧ w_tvshows w1 = w_tvshows w ∧
     ∀ u', u' ≠ u -> w_mylists w1 !! u' = w_mylists w !! u') ∧
  (∀ q,
     let w1 := world_of (run (MyListService.getMyList cs u q) w) in
     w_users w1 = w_users w ∧ w_movies w1 = w_movies w ∧ w_tvshows w1 = w_tvshows w ∧
     w_mylists w1 = w_mylists w).
Proof.
  split; [|split].
  - intros request w1. subst w1.
    destruct (run_addToMyList cs w u request) as (f & tr & ->).
    destruct (negb (user_exists w u)); [done|].
    destruct (negb (content_exists w _ _)); [done|].
    destruct (in_list w u _); [done|].
    unfold world_of. cbn. repeat split. intros u' Hne. by rewrite lookup_insert_ne.
  - intros cid w1. subst w1.
    destruct (run_removeFromMyList cs w u cid) as (f & tr & ->).
    destruct (w_mylists w !! u) as [d|] eqn:Hd; [|done].
    unfold world_of. cbn. repeat split. intros u' Hne. by rewrite lookup_insert_ne.
  - intros q w1. subst w1.
    by destruct (run_getMyList cs u q w) as (f & tr & ->).
Qed.


(** X25.  When the ids of the user's list are distinct, every entry
    of a freshly assembled page carries the fields of its own type: a
    [Movie] has release date, director and actors and no episode count, a
    [TVShow] has an episode count and none of the three. *)
Theorem listed_details_match_type (cs : CacheService) (w : World) (u : string)
    (q : ListMyItemsQuery) :
  NoDup (contentId <$> user_items w u) ->
  cached_value cs w (query_key u q) = None ->
  ∃ resp,
    result_of (run (MyListService.getMyList cs u q) w) = inr resp ∧
    ∀ d, d ∈ data resp ->
      match d_contentType d with
      | Movie => is_Some (d_releaseDate d) ∧ is_Some (d_director d) ∧
                 is_Some (d_actors d) ∧ d_episodeCount d = None
      | TVShow => is_Some (d_episodeCount d) ∧ d_releaseDate d = None ∧
                  d_director d = None ∧ d_actors d = None
      end.
Proof.
  intros Hnd Hmiss.
  destruct (run_getMyList cs u q w) as (f & tr & Hrun).
  rewrite Hmiss in Hrun. rewrite Hrun.
  exists (fresh_response w u q). split; [done|].
  intros d Hd. rewrite fresh_response_data in Hd.
  - apply list_elem_of_omap in Hd as (it & Hit & Hd).
    apply fmap_Some in Hd as (c & Hc & ->).
    unfold resolve in Hc.
    destruct (withDetails_entry it c) as (_ & -> & _).
    destruct (contentType it); apply fmap_Some in Hc as (x & _ & ->); cbn;
      repeat split; by eexists.
  - cbn zeta.
    assert (Hcons : type_consistent (fetched_page w u
                      (MyListService.or_default (query_page q) 1)
                      (MyListService.or_default (query_limit q) 10))).
    { apply NoDup_type_consistent. eapply submseteq_NoDup; [|exact Hnd].
      apply fmap_submseteq, fetched_page_submseteq. }
    destruct (query_contentType q); [|done].
    by apply filter_type_consistent.
Qed.

Lemma listed_details_match_type_witness :
  ∃ resp,
    result_of (run (MyListService.getMyList cacheActive "user-1" (demo_query 1 10 None))
                 demo_world) = inr resp ∧
    ∀ d, d ∈ data resp ->
      match d_contentType d with
      | Movie => is_Some (d_releaseDate d) ∧ is_Some (d_director d) ∧
                 is_Some (d_actors d) ∧ d_episodeCount d = None
      | TVShow => is_Some (d_episodeCount d) ∧ d_releaseDate d = None ∧
                  d_director d = None ∧ d_actors d = None
      end.
Proof.
  apply (listed_details_match_type cacheActive demo_world "user-1" (demo_query 1 10 None)).
  - vm_compute. repeat constructor; set_solver.
  - vm_compute. reflexivity.
Defined.
